(** * Snake Arena: the simulation engine and the scoreboard service

    A shallow embedding of [src/client/game.tsx] (the [useSnakeGame] hook) and
    of the scoreboard routes of the Hono server ([/snake/init] and
    [/snake/score]), with the properties their specification states.

    Conventions.
    - Board coordinates, direction components and the score counter of the
      client are small JavaScript integers; they are modelled in [Z].
    - [Math.random()] is an oracle: the [i]-th call returns [Math_random i], a
      rational of the unit interval; the session records how many calls it made.
    - The tick interval is a JavaScript double; it is modelled as a rational,
      so that [prev * 0.9] is the exact product.
    - React state is one record; every [setX] of a callback is one field
      update, and an updater function runs once.
    - A JavaScript string is a [string] of code units below 256.
    - The store maps keys to texts. A comment-log text is kept as what
      [JSON.parse] makes of it, so that [JSON.stringify] followed by
      [JSON.parse] is the identity on the values the routes write.
    - A call to the store or to the identity provider may throw; which calls
      do is an input of the request, and every call is logged with its
      outcome. A call that throws leaves the store as it was.
    - An error that a handler does not catch is answered by the framework
      with status 500. *)

From Stdlib Require Import ZArith QArith Qround String Ascii List Bool Lia Lqa.
From stdpp Require Import base option list strings gmap.
Import ListNotations.

Local Open Scope string_scope.
Local Open Scope Z_scope.

(** ** JavaScript values the server handlers compute with *)

Module JS.

(** A JavaScript number. A finite one is written as the decimal that
    [Number::toString] prints it from: sign, digits [s] and a power of ten,
    standing for [± s × 10^e]. Comparison and printing read nothing else. *)
Inductive number :=
| NaN
| Infinity (negative : bool)
| Finite (negative : bool) (s : N) (e : Z).

Definition ofN (n : N) : number := Finite false n 0.

Definition zero : number := ofN 0.

(** [Number.isFinite] *)
Definition isFinite (v : number) : bool :=
  match v with
  | Finite _ _ _ => true
  | _ => false
  end.

(** The value of a finite number in units of [10^m], for [m] not above its
    exponent. *)
Definition scaled (m : Z) (negative : bool) (s : N) (e : Z) : Z :=
  (if negative then -1 else 1) * Z.of_N s * 10 ^ (e - m).

(** [a < b] *)
Definition lt (a b : number) : bool :=
  match a, b with
  | NaN, _ => false
  | _, NaN => false
  | Infinity na, Infinity nb => na && negb nb
  | Infinity na, Finite _ _ _ => na
  | Finite _ _ _, Infinity nb => negb nb
  | Finite na sa ea, Finite nb sb eb =>
      let m := Z.min ea eb in
      scaled m na sa ea <? scaled m nb sb eb
  end.

(** [a > b] *)
Definition gt (a b : number) : bool := lt b a.

(** *** Numerals *)

Definition digitChar (d : N) : ascii := ascii_of_N (48 + d).

(** The decimal digits of [n], most significant first; [fuel] bounds the
    number of digits. *)
Fixpoint digits_fuel (fuel : nat) (n : N) : list N :=
  match fuel with
  | O => []
  | S fuel' =>
      if (n <? 10)%N then [n]
      else digits_fuel fuel' (n / 10)%N ++ [(n mod 10)%N]
  end.

Definition digits (n : N) : list N :=
  digits_fuel (N.to_nat (N.size n)) n.

Fixpoint dropZeros (l : list N) : list N :=
  match l with
  | 0%N :: l' => dropZeros l'
  | _ => l
  end.

(** The digits without the trailing zeros. *)
Definition significand (ds : list N) : list N := rev (dropZeros (rev ds)).

Definition numeral (ds : list N) : string :=
  string_of_list_ascii (map digitChar ds).

Definition zeros (n : nat) : string := numeral (repeat 0%N n).

(** [Number::toString(x)] for a finite [x > 0], radix 10: with [k] significant
    digits and [10^(n-1) <= x < 10^n]. *)
Definition positiveToString (s : N) (e : Z) : string :=
  let ds := digits s in
  let sig := significand ds in
  let k := Z.of_nat (length sig) in
  let n := Z.of_nat (length ds) + e in
  if (k <=? n) && (n <=? 21) then
    (numeral sig ++ zeros (Z.to_nat (n - k)))%string
  else if (0 <? n) && (n <=? 21) then
    (numeral (firstn (Z.to_nat n) sig) ++ "."
       ++ numeral (skipn (Z.to_nat n) sig))%string
  else if (-6 <? n) && (n <=? 0) then
    ("0." ++ zeros (Z.to_nat (- n)) ++ numeral sig)%string
  else
    let c := if 0 <=? n - 1 then "+" else "-" in
    let d := numeral (digits (Z.to_N (Z.abs (n - 1)))) in
    match sig with
    | [_] => (numeral sig ++ "e" ++ c ++ d)%string
    | _ => (numeral (firstn 1 sig) ++ "." ++ numeral (skipn 1 sig)
              ++ "e" ++ c ++ d)%string
    end.

(** [String(x)] *)
Definition Number_toString (v : number) : string :=
  match v with
  | NaN => "NaN"
  | Infinity negative => if negative then "-Infinity" else "Infinity"
  | Finite negative s e =>
      if (s =? 0)%N then "0"
      else ((if negative then "-" else "") ++ positiveToString s e)%string
  end.

(** White space and line terminators among the code units below 256. *)
Definition isWhiteSpace (c : ascii) : bool :=
  let n := N_of_ascii c in
  ((9 <=? n) && (n <=? 13) || (n =? 32) || (n =? 160))%N.

Fixpoint trimStart (s : string) : string :=
  match s with
  | String c s' => if isWhiteSpace c then trimStart s' else s
  | EmptyString => EmptyString
  end.

Definition reverse (s : string) : string :=
  string_of_list_ascii (rev (list_ascii_of_string s)).

(** [s.trim()] *)
Definition trim (s : string) : string :=
  reverse (trimStart (reverse (trimStart s))).

(** [s.slice(0, n)] *)
Definition slice0 (n : nat) (s : string) : string := substring 0 n s.

(** [s.slice(n)] *)
Definition sliceFrom (n : nat) (s : string) : string :=
  substring n (String.length s - n) s.

(** A string is truthy when it is not empty. *)
Definition truthy (s : string) : bool :=
  match s with
  | EmptyString => false
  | String _ _ => true
  end.

(** The value of a digit of the given radix. *)
Definition digitValue (radix : N) (c : ascii) : option N :=
  let n := N_of_ascii c in
  let v := if ((48 <=? n) && (n <=? 57))%N then Some (n - 48)%N
           else if ((97 <=? n) && (n <=? 122))%N then Some (n - 87)%N
           else if ((65 <=? n) && (n <=? 90))%N then Some (n - 55)%N
           else None in
  match v with
  | Some d => if (d <? radix)%N then Some d else None
  | None => None
  end.

(** The longest prefix of digits of the radix, as their values. *)
Fixpoint digitPrefix (radix : N) (s : string) : list N :=
  match s with
  | String c s' =>
      match digitValue radix c with
      | Some d => d :: digitPrefix radix s'
      | None => []
      end
  | EmptyString => []
  end.

Definition positional (radix : N) (ds : list N) : N :=
  fold_left (fun acc d => (acc * radix + d)%N) ds 0%N.

(** A leading sign: whether it is a minus, and the text after it. *)
Definition signOf (text : string) : bool * string :=
  match text with
  | String "-" rest => (true, rest)
  | String "+" rest => (false, rest)
  | _ => (false, text)
  end.

(** The radix when none is given: 16 after a prefix [0x] or [0X], else 10. *)
Definition radixOf (text : string) : N * string :=
  match text with
  | String "0" (String "x" rest) => (16%N, rest)
  | String "0" (String "X" rest) => (16%N, rest)
  | _ => (10%N, text)
  end.

(** [parseInt(input)] with no radix argument. *)
Definition parseInt (input : string) : number :=
  let '(negative, text) := signOf (trimStart input) in
  let '(radix, text) := radixOf text in
  match digitPrefix radix text with
  | [] => NaN
  | ds => Finite negative (positional radix ds) 0
  end.

End JS.

(** ** The simulation engine ([src/client/game.tsx]) *)

Module Game.

Record Cell := mkCell { x : Z; y : Z }.

Record Direction := mkDirection { dx : Z; dy : Z }.

Definition BOARD_SIZE : Z := 20.
Definition BASE_TICK_MS : Q := 800 # 1.
Definition MIN_TICK_MS : Q := 150 # 1.

Definition cellsEqual (a b : Cell) : bool :=
  (x a =? x b) && (y a =? y b).

(** [snake.some((s) => cellsEqual(s, candidate))] *)
Definition occupies (snake : list Cell) (candidate : Cell) : bool :=
  existsb (fun s => cellsEqual s candidate) snake.

Record GameSession := mkGame {
  snake : list Cell;
  direction : Direction;
  nextDirection : Direction;
  food : Cell;
  snakeColor : Z;          (* the hue h of [hsl(h 80% 50%)] *)
  score : Z;
  gameOver : bool;
  isRunning : bool;
  tickMs : Q;
  draws : nat              (* calls of [Math.random()] made so far *)
}.

Section Engine.

(** The [i]-th value returned by [Math.random()]. *)
Variable Math_random : nat -> Q.

(** [randomInt(max)] evaluated as call number [i] of the oracle. *)
Definition randomInt (max : Z) (i : nat) : Z :=
  Qfloor (Math_random i * inject_Z max).

(** The candidate of the attempt that starts at call [i]: [x] is drawn first. *)
Definition candidateAt (i : nat) : Cell :=
  {| x := randomInt BOARD_SIZE i; y := randomInt BOARD_SIZE (S i) |}.

(** The [for] loop of [generateFood], with [attempts] iterations left; returns
    the cell and the oracle position after it. *)
Fixpoint generateFood_from (attempts : nat) (snake : list Cell) (i : nat)
  : Cell * nat :=
  match attempts with
  | O => ({| x := 0; y := 0 |}, i)
  | S attempts' =>
      let candidate := candidateAt i in
      if negb (occupies snake candidate) then (candidate, S (S i))
      else generateFood_from attempts' snake (S (S i))
  end.

Definition generateFood (snake : list Cell) (i : nat) : Cell * nat :=
  generateFood_from 100 snake i.

(** [randomColor()]: one draw, the hue. *)
Definition randomColor (i : nat) : Z * nat := (randomInt 360 i, S i).

Definition center : Z := BOARD_SIZE / 2.

(** The [useState] initialisers, in declaration order. *)
Definition initialSession : GameSession :=
  let '(f, i1) := generateFood [] O in
  let '(c, i2) := randomColor i1 in
  {| snake := [ {| x := center; y := center |} ];
     direction := {| dx := 1; dy := 0 |};
     nextDirection := {| dx := 1; dy := 0 |};
     food := f;
     snakeColor := c;
     score := 0;
     gameOver := false;
     isRunning := false;
     tickMs := BASE_TICK_MS;
     draws := i2 |}.

Definition resetGame (g : GameSession) : GameSession :=
  let startCell := {| x := center; y := center |} in
  let '(f, i1) := generateFood [startCell] (draws g) in
  let '(c, i2) := randomColor i1 in
  {| snake := [startCell];
     direction := {| dx := 1; dy := 0 |};
     nextDirection := {| dx := 1; dy := 0 |};
     food := f;
     snakeColor := c;
     score := 0;
     gameOver := false;
     isRunning := true;
     tickMs := BASE_TICK_MS;
     draws := i2 |}.

(** The pause/resume control: [if (gameOver) resetGame(); else
    setIsRunning((prev) => !prev)]. *)
Definition toggleOrReset (g : GameSession) : GameSession :=
  if gameOver g then resetGame g
  else {| snake := snake g; direction := direction g;
          nextDirection := nextDirection g; food := food g;
          snakeColor := snakeColor g; score := score g;
          gameOver := gameOver g; isRunning := negb (isRunning g);
          tickMs := tickMs g; draws := draws g |}.

(** The four [if]s of [onKeyDown] that assign [next], in source order. *)
Definition keyDirection (key : string) : option Direction :=
  let next := None in
  let next := if String.eqb key "ArrowUp" || String.eqb key "w"
              then Some {| dx := 0; dy := -1 |} else next in
  let next := if String.eqb key "ArrowDown" || String.eqb key "s"
              then Some {| dx := 0; dy := 1 |} else next in
  let next := if String.eqb key "ArrowLeft" || String.eqb key "a"
              then Some {| dx := -1; dy := 0 |} else next in
  let next := if String.eqb key "ArrowRight" || String.eqb key "d"
              then Some {| dx := 1; dy := 0 |} else next in
  next.

(** [next.x === -direction.x && next.y === -direction.y] *)
Definition isReverse (next current : Direction) : bool :=
  (dx next =? - dx current) && (dy next =? - dy current).

Definition setNextDirection (next : Direction) (g : GameSession) : GameSession :=
  {| snake := snake g; direction := direction g; nextDirection := next;
     food := food g; snakeColor := snakeColor g; score := score g;
     gameOver := gameOver g; isRunning := isRunning g; tickMs := tickMs g;
     draws := draws g |}.

Definition onKeyDown (key : string) (g : GameSession) : GameSession :=
  if String.eqb key "Shift" then toggleOrReset g
  else
    match keyDirection key with
    | None => g
    | Some next =>
        if isReverse next (direction g) then g
        else setNextDirection next g
    end.

(** [head + nextDirection] *)
Definition advance (head : Cell) (d : Direction) : Cell :=
  {| x := x head + dx d; y := y head + dy d |}.

Definition outOfBoard (c : Cell) : bool :=
  (x c <? 0) || (y c <? 0) || (x c >=? BOARD_SIZE) || (y c >=? BOARD_SIZE).

(** The updater of [setTickMs]. *)
Definition fasterTick (prev : Q) : Q :=
  let next := (prev * (9 # 10))%Q in
  if negb (Qle_bool MIN_TICK_MS next) then MIN_TICK_MS else next.

(** [setGameOver(true); setIsRunning(false); return current], after the
    [setDirection(nextDirection)] that opens the callback. *)
Definition crash (g : GameSession) : GameSession :=
  {| snake := snake g; direction := nextDirection g;
     nextDirection := nextDirection g; food := food g;
     snakeColor := snakeColor g; score := score g;
     gameOver := true; isRunning := false; tickMs := tickMs g;
     draws := draws g |}.

(** The body of the [setInterval] callback. *)
Definition intervalCallback (g : GameSession) : GameSession :=
  match snake g with
  | [] =>
      {| snake := snake g; direction := nextDirection g;
         nextDirection := nextDirection g; food := food g;
         snakeColor := snakeColor g; score := score g;
         gameOver := gameOver g; isRunning := isRunning g;
         tickMs := tickMs g; draws := draws g |}
  | head :: _ =>
      let current := snake g in
      let newHead := advance head (nextDirection g) in
      if outOfBoard newHead then crash g
      else if occupies current newHead then crash g
      else if cellsEqual newHead (food g) then
        let grown := newHead :: current in
        let '(c, i1) := randomColor (draws g) in
        let '(f, i2) := generateFood grown i1 in
        {| snake := grown; direction := nextDirection g;
           nextDirection := nextDirection g; food := f;
           snakeColor := c; score := score g + 1;
           gameOver := gameOver g; isRunning := isRunning g;
           tickMs := fasterTick (tickMs g); draws := i2 |}
      else
        let withoutTail := removelast current in
        {| snake := newHead :: withoutTail; direction := nextDirection g;
           nextDirection := nextDirection g; food := food g;
           snakeColor := snakeColor g; score := score g;
           gameOver := gameOver g; isRunning := isRunning g;
           tickMs := tickMs g; draws := draws g |}
  end.

(** One period of the timer. The effect installs the interval only when
    [isRunning && !gameOver]; otherwise nothing fires. *)
Definition tick (g : GameSession) : GameSession :=
  if negb (isRunning g) || gameOver g then g else intervalCallback g.

(** What can happen to a session. *)
Inductive Event :=
| Tick
| KeyDown (key : string)
| ClickPlayAgain          (* the overlay button: [onClick={resetGame}] *)
| ClickStartPause.        (* the button under the board *)

Definition step (g : GameSession) (e : Event) : GameSession :=
  match e with
  | Tick => tick g
  | KeyDown key => onKeyDown key g
  | ClickPlayAgain => resetGame g
  | ClickStartPause => toggleOrReset g
  end.

Definition run (events : list Event) : GameSession :=
  fold_left step events initialSession.

End Engine.

(** [Running]: the state in which the timer fires. *)
Definition running (g : GameSession) : Prop :=
  isRunning g = true /\ gameOver g = false.

(** The cell the next tick moves the head to. *)
Definition newHeadOf (g : GameSession) : option Cell :=
  match snake g with
  | [] => None
  | head :: _ => Some (advance head (nextDirection g))
  end.

Definition onBoard (c : Cell) : Prop :=
  0 <= x c < BOARD_SIZE /\ 0 <= y c < BOARD_SIZE.

(** The contract of [Math.random()]: every value is in [0, 1). *)
Definition unitInterval (r : nat -> Q) : Prop :=
  forall i, (0 <= r i)%Q /\ (r i < 1)%Q.

End Game.

(** ** The scoreboard service (the [/snake/init] and [/snake/score] routes) *)

Module Scoreboard.

Import JS.

(** A JSON value, as [JSON.parse] returns it. *)
#[local] Unset Elimination Schemes.
Inductive json :=
| JNull
| JBool (b : bool)
| JNumber (n : number)
| JString (s : string)
| JArray (items : list json)
| JObject (fields : list (string * json)).
#[local] Set Elimination Schemes.

Record SnakeComment := mkComment {
  id : string;
  username : string;
  score : number;
  message : string;
  createdAt : string
}.

(** A comment as the object that is serialised into the log. *)
Definition commentJson (c : SnakeComment) : json :=
  JObject [ ("id", JString (id c));
            ("username", JString (username c));
            ("score", JNumber (score c));
            ("message", JString (message c));
            ("createdAt", JString (createdAt c)) ].

(** The text held under a comment-log key, identified with what [JSON.parse]
    makes of it: either a text it rejects, or the text [JSON.stringify(v)],
    which it parses back to [v]. *)
Inductive payload :=
| Unparsable (raw : string)
| Stringified (v : json).

Definition payloadTruthy (p : payload) : bool :=
  match p with
  | Unparsable raw => truthy raw
  | Stringified _ => true
  end.

(** The key-value store: the high-score keys hold plain strings, the
    comment-log keys hold serialised JSON. *)
Record Redis := mkRedis {
  strings : gmap string string;
  documents : gmap string payload
}.

Definition noData : Redis := {| strings := ∅; documents := ∅ |}.

(** What a rejected promise carries: an [Error] with its message, or any
    other value. *)
Inductive Thrown :=
| ThrownError (message : string)
| ThrownOther.

(** The calls a handler makes to its collaborators. *)
Inductive Call :=
| RedisGet (key : string)
| RedisSet (key : string)
| GetCurrentUsername.

(** What the platform supplies to one request. [faults] gives the outcome of
    the successive external calls: [Some t] makes the call throw [t]; calls
    beyond the list succeed. *)
Record Env := mkEnv {
  currentUsername : option string;   (* reddit.getCurrentUsername() *)
  Date_now : number;                 (* Date.now() *)
  Math_random_hex : string;          (* Math.random().toString(16) *)
  Date_toISOString : string;         (* new Date().toISOString() *)
  faults : list (option Thrown)
}.

Record State := mkState {
  redis : Redis;
  pending : list (option Thrown);          (* outcomes not yet consumed *)
  trace : list (Call * option Thrown)      (* calls made, oldest first *)
}.

Inductive Completion (A : Type) :=
| Normal (a : A)
| Throw (t : Thrown).
Arguments Normal {A} a.
Arguments Throw {A} t.

Definition M (A : Type) : Type := State -> Completion A * State.

Definition ret {A} (a : A) : M A := fun st => (Normal a, st).

Definition bind {A B} (m : M A) (k : A -> M B) : M B :=
  fun st =>
    match m st with
    | (Normal a, st') => k a st'
    | (Throw t, st') => (Throw t, st')
    end.

Notation "'let*' x ':=' m 'in' k" := (bind m (fun x => k))
  (at level 10, x pattern, m at level 100, k at level 200).

(** An awaited external call: it is logged with its outcome; when it does not
    throw, [effect] gives its result and the store after it. *)
Definition external {A} (c : Call) (effect : Redis -> A * Redis) : M A :=
  fun st =>
    let outcome := match pending st with
                   | o :: _ => o
                   | [] => None
                   end in
    let rest := tl (pending st) in
    match outcome with
    | Some t =>
        (Throw t, {| redis := redis st; pending := rest;
                     trace := trace st ++ [(c, Some t)] |})
    | None =>
        let '(a, r) := effect (redis st) in
        (Normal a, {| redis := r; pending := rest;
                      trace := trace st ++ [(c, None)] |})
    end.

(** [redis.get(key)] on a high-score key. *)
Definition redis_get (key : string) : M (option string) :=
  external (RedisGet key) (fun r => (strings r !! key, r)).

(** [redis.get(key)] on a comment-log key. *)
Definition redis_get_document (key : string) : M (option payload) :=
  external (RedisGet key) (fun r => (documents r !! key, r)).

(** [redis.set(key, value)] on a high-score key. *)
Definition redis_set (key : string) (value : string) : M unit :=
  external (RedisSet key)
    (fun r => (tt, {| strings := <[key := value]> (strings r);
                      documents := documents r |})).

(** [redis.set(key, JSON.stringify(v))] on a comment-log key. *)
Definition redis_set_document (key : string) (v : json) : M unit :=
  external (RedisSet key)
    (fun r => (tt, {| strings := strings r;
                      documents := <[key := Stringified v]> (documents r) |})).

Definition reddit_getCurrentUsername (env : Env) : M (option string) :=
  external GetCurrentUsername (fun r => (currentUsername env, r)).

(** A promise that is started and later inspected. *)
Definition settle {A} (m : M A) : M (Completion A) :=
  fun st => let '(c, st') := m st in (Normal c, st').

(** [await Promise.all([a, b, c])]: the three calls are all issued; the
    rejection that is reported is the first in the order of the array. *)
Definition Promise_all3 {A B C} (a : M A) (b : M B) (c : M C) : M (A * B * C) :=
  let* ra := settle a in
  let* rb := settle b in
  let* rc := settle c in
  fun st =>
    match ra, rb, rc with
    | Normal x, Normal y, Normal z => (Normal (x, y, z), st)
    | Throw t, _, _ => (Throw t, st)
    | _, Throw t, _ => (Throw t, st)
    | _, _, Throw t => (Throw t, st)
    end.

Record Keys := mkKeys { scoreKey : string; commentsKey : string }.

Definition snakeKeysForPost (postId : string) : Keys :=
  let base := ("snake:" ++ postId)%string in
  {| scoreKey := (base ++ ":highscore")%string;
     commentsKey := (base ++ ":comments")%string |}.

(** Response bodies of the two routes. *)
Inductive ResponseBody :=
| ErrorResponse (message : string)
| SnakeInitResponse (postId username : string) (highScore : number)
    (comments : list json)
| SnakeScoreResponse (postId : string) (highScore : number) (newBest : bool)
    (comment : option SnakeComment)
| PlainText (text : string).      (* a body sent with [c.text], not [c.json] *)

Record Response := mkResponse { status : Z; body : ResponseBody }.

(** [c.json(body)] and [c.json(body, 400)] *)
Definition json200 (b : ResponseBody) : Response := {| status := 200; body := b |}.
Definition json400 (b : ResponseBody) : Response := {| status := 400; body := b |}.

(** [rawHighScore ? parseInt(rawHighScore) : 0] *)
Definition readHighScore (rawHighScore : option string) : number :=
  match rawHighScore with
  | Some raw => if truthy raw then parseInt raw else zero
  | None => zero
  end.

(** The block that fills [comments] from [rawComments]: empty unless the
    text is present, parses, and parses to an array. *)
Definition readComments (rawComments : option payload) : list json :=
  match rawComments with
  | Some p =>
      if payloadTruthy p then
        match p with
        | Stringified (JArray parsed) => parsed
        | Stringified _ => []
        | Unparsable _ => []          (* caught and logged *)
        end
      else []
  | None => []
  end.

(** [!postId] *)
Definition missing (postId : option string) : bool :=
  match postId with
  | Some p => negb (truthy p)
  | None => true
  end.

(** [username ?? 'anonymous'] *)
Definition orAnonymous (username : option string) : string :=
  match username with
  | Some u => u
  | None => "anonymous"
  end.

(** The [catch] arm of a route: the message built from what was thrown. *)
Definition failureMessage (unknown prefix : string) (t : Thrown) : string :=
  match t with
  | ThrownError m => (prefix ++ m)%string
  | ThrownOther => unknown
  end.

(** A route: it always produces a response. *)
Definition Handler : Type := State -> Response * State.

Definition respond (resp : Response) : Handler := fun st => (resp, st).

(** [try { return c.json(block) } catch (error) { return handler(error) }] *)
Definition tryCatch (block : M ResponseBody) (handler : Thrown -> Response)
  : Handler :=
  fun st =>
    match block st with
    | (Normal b, st') => (json200 b, st')
    | (Throw error, st') => (handler error, st')
    end.

(** *** [api.get('/snake/init')] *)

Definition snakeInit_try (postId : string) (env : Env) : M ResponseBody :=
  let keys := snakeKeysForPost postId in
  let* (rawHighScore, rawComments, username) :=
    Promise_all3 (redis_get (scoreKey keys))
                 (redis_get_document (commentsKey keys))
                 (reddit_getCurrentUsername env) in
  let highScore := readHighScore rawHighScore in
  let comments := readComments rawComments in
  ret (SnakeInitResponse postId (orAnonymous username) highScore comments).

Definition snakeInit_route (postId : option string) (env : Env) : Handler :=
  if missing postId then
    respond (json400 (ErrorResponse "postId is required but missing from context"))
  else
    let postId := default "" postId in
    tryCatch (snakeInit_try postId env)
      (fun error =>
         json400 (ErrorResponse
           (failureMessage "Unknown error during snake initialization"
                           "Snake initialization failed: " error))).

(** *** [api.post('/snake/score')] *)

(** The request body after [c.req.json<SnakeScoreRequest>()]: [score] is
    [Number(body.score)] ([NaN] when the field is missing), [message] is
    [body.message] when it is a string. *)
Record SnakeScoreRequest := mkRequest {
  req_score : number;
  req_message : option string
}.

Definition newCommentId (env : Env) : string :=
  (Number_toString (Date_now env) ++ "-" ++ sliceFrom 2 (Math_random_hex env))%string.

(** [comments.slice(comments.length - 20)] when there are more than 20. *)
Definition capLog (comments : list json) : list json :=
  if (20 <? length comments)%nat
  then skipn (length comments - 20) comments
  else comments.

(** [typeof body.message === 'string' ? body.message.trim() : ''] *)
Definition trimmedMessageOf (message : option string) : string :=
  match message with
  | Some m => trim m
  | None => ""
  end.

(** The object literal assigned to [newComment]. *)
Definition makeComment (username : option string) (score : number)
    (trimmedMessage : string) (env : Env) : SnakeComment :=
  {| id := newCommentId env;
     username := orAnonymous username;
     score := score;
     message := slice0 280 trimmedMessage;
     createdAt := Date_toISOString env |}.

Definition snakeScore_try (postId : string) (score : number)
    (message : option string) (env : Env) : M ResponseBody :=
  let keys := snakeKeysForPost postId in
  let* (rawHighScore, rawComments, username) :=
    Promise_all3 (redis_get (scoreKey keys))
                 (redis_get_document (commentsKey keys))
                 (reddit_getCurrentUsername env) in
  let currentHigh := readHighScore rawHighScore in
  let newBest := gt score currentHigh in
  let highScore := if newBest then score else currentHigh in
  let* _ := (if newBest then redis_set (scoreKey keys) (Number_toString highScore)
             else ret tt) in
  let comments := readComments rawComments in
  let trimmedMessage := trimmedMessageOf message in
  if truthy trimmedMessage then
    let newComment := makeComment username score trimmedMessage env in
    let comments := (comments ++ [commentJson newComment])%list in
    let comments := capLog comments in
    let* _ := redis_set_document (commentsKey keys) (JArray comments) in
    ret (SnakeScoreResponse postId highScore newBest (Some newComment))
  else
    ret (SnakeScoreResponse postId highScore newBest None).

(** What [await c.req.json()] produces: it throws ([NotJson]), it returns
    [null] ([JsonNull]), or it returns a value whose properties can be read
    ([Parsed]), an object or a primitive other than [null]. *)
Inductive RequestBody :=
| NotJson
| JsonNull
| Parsed (body : SnakeScoreRequest).

(** What a route hands to the framework: a response, or an error that the
    handler did not catch. *)
Definition Route : Type := State -> Completion Response * State.

(** A handler that returns its response. *)
Definition answer (h : Handler) : Route :=
  fun st => let '(resp, st') := h st in (Normal resp, st').

(** Hono's default error handler, which answers for a handler that throws:
    [c.text('Internal Server Error', 500)]. *)
Definition onError (route : Route) : Handler :=
  fun st =>
    match route st with
    | (Normal resp, st') => (resp, st')
    | (Throw _, st') =>
        ({| status := 500; body := PlainText "Internal Server Error" |}, st')
    end.

(** The route. [Number(body.score)] is evaluated outside every [try]: on a
    [null] body the property access throws a [TypeError] that nothing in the
    handler catches. *)
Definition snakeScore_route (postId : option string)
    (request : RequestBody) (env : Env) : Route :=
  if missing postId then
    answer (respond (json400 (ErrorResponse "postId is required")))
  else
    let postId := default "" postId in
    match request with
    | NotJson => answer (respond (json400 (ErrorResponse "Invalid request body")))
    | JsonNull =>
        fun st =>
          (Throw (ThrownError "Cannot read properties of null (reading 'score')"),
           st)
    | Parsed body =>
        let score := req_score body in
        if negb (isFinite score) || lt score zero then
          answer (respond
                    (json400 (ErrorResponse "Score must be a non-negative number")))
        else
          answer
            (tryCatch (snakeScore_try postId score (req_message body) env)
               (fun error =>
                  json400 (ErrorResponse
                    (failureMessage "Unknown error while saving score"
                                    "Saving score failed: " error))))
    end.

(** One request served against the store: the response, the store after it,
    and the external calls it made, each with its outcome. *)
Definition serve (route : Handler) (env : Env) (r : Redis)
  : Response * Redis * list (Call * option Thrown) :=
  let '(resp, st) := route {| redis := r; pending := faults env; trace := [] |} in
  (resp, redis st, trace st).

Definition snakeInit (postId : option string) (env : Env) (r : Redis) :=
  serve (snakeInit_route postId env) env r.

Definition snakeScore (postId : option string)
    (request : RequestBody) (env : Env) (r : Redis) :=
  serve (onError (snakeScore_route postId request env)) env r.

(** The stored high score and comment log of a context, read the way both
    routes read them. *)
Definition storedHighScore (postId : string) (r : Redis) : number :=
  readHighScore (strings r !! scoreKey (snakeKeysForPost postId)).

Definition storedComments (postId : string) (r : Redis) : list json :=
  readComments (documents r !! commentsKey (snakeKeysForPost postId)).

(** A score the submit route accepts: [Number.isFinite(score) && !(score < 0)]. *)
Definition validScore (s : number) : Prop :=
  isFinite s = true /\ lt s zero = false.

(** A submission as the platform delivers it: the parsed body and what the
    platform supplies while it is served. *)
Definition Submission : Type := SnakeScoreRequest * Env.

(** The comment a submission creates when its trimmed message is not empty. *)
Definition commentOf (sub : Submission) : SnakeComment :=
  makeComment (currentUsername (snd sub)) (req_score (fst sub))
    (trimmedMessageOf (req_message (fst sub))) (snd sub).

(** Submissions for one context served one after the other. *)
Definition submitAll (postId : string) (subs : list Submission) (r : Redis)
  : Redis :=
  fold_left
    (fun acc sub => snd (fst (snakeScore (Some postId) (Parsed (fst sub)) (snd sub) acc)))
    subs r.

(** Whether a call is a [redis.set]. *)
Definition isWrite (c : Call * option Thrown) : bool :=
  match fst c with
  | RedisSet _ => true
  | _ => false
  end.

(** What the failed calls of a request threw, in call order. *)
Definition thrownBy (calls : list (Call * option Thrown)) : list Thrown :=
  omap snd calls.

(** An integer score that [String] prints as plain decimal digits. *)
Definition plainInteger (s : number) : Prop :=
  exists n : N, s = ofN n /\ (n < 10 ^ 21)%N.

(** A number without a fractional part or exponent, or [NaN]: what
    [parseInt] returns. *)
Definition integral (v : number) : Prop :=
  match v with
  | NaN => True
  | Finite _ _ 0 => True
  | _ => False
  end.

End Scoreboard.

(** * Concrete sessions and requests *)

Module Scenarios.

Import Game.

(** A running session with the given snake, heading and food. *)
Definition session (cells : list Cell) (d : Direction) (f : Cell) : GameSession :=
  {| snake := cells; direction := d; nextDirection := d; food := f;
     snakeColor := 120; score := 0; gameOver := false; isRunning := true;
     tickMs := BASE_TICK_MS; draws := 3 |}.

Definition right : Direction := {| dx := 1; dy := 0 |}.

(** An oracle that always returns one half. *)
Definition halves : nat -> Q := fun _ => (1 # 2)%Q.

(** Head on the right edge, heading right. *)
Definition atRightEdge : GameSession :=
  session [ mkCell 19 0; mkCell 18 0 ] right (mkCell 3 3).

(** The head is about to enter the cell its tail still occupies. *)
Definition chasingTail : GameSession :=
  session [ mkCell 5 5; mkCell 5 6; mkCell 6 6; mkCell 6 5 ] right (mkCell 3 3).

(** Three cells, food right in front of the head. *)
Definition beforeFood : GameSession :=
  session [ mkCell 5 5; mkCell 4 5; mkCell 3 5 ] right (mkCell 6 5).

(** An oracle that makes the first three foods appear at (1,0), (1,1) and
    (0,1), and every later candidate at (0,0). *)
Definition cornerOracle : nat -> Q :=
  fun i => if (i =? 0)%nat || (i =? 4)%nat || (i =? 5)%nat || (i =? 8)%nat
           then (3 # 40)%Q else 0%Q.

(** Start, walk a one-cell snake to the corner (0,0), eat the three foods
    around the corner, and turn towards the corner again. *)
Definition cornerLoop : list Event :=
  [ ClickStartPause; KeyDown "ArrowUp"; Tick; KeyDown "ArrowLeft" ]
  ++ repeat Tick 10 ++ [ KeyDown "ArrowUp" ] ++ repeat Tick 9
  ++ [ KeyDown "ArrowRight"; Tick; KeyDown "ArrowDown"; Tick;
       KeyDown "ArrowLeft"; Tick; KeyDown "ArrowUp" ].

(** A request environment in which no call fails. *)
Definition quiet : Scoreboard.Env :=
  {| Scoreboard.currentUsername := Some "alice";
     Scoreboard.Date_now := JS.ofN 1730538000123;
     Scoreboard.Math_random_hex := "0.8f3a91c2";
     Scoreboard.Date_toISOString := "2026-11-02T09:00:00.123Z";
     Scoreboard.faults := [] |}.

(** The same environment, with the second call (the read of the comment log)
    rejected with an [Error]. *)
Definition flaky (reason : string) : Scoreboard.Env :=
  {| Scoreboard.currentUsername := Some "alice";
     Scoreboard.Date_now := JS.ofN 1730538000123;
     Scoreboard.Math_random_hex := "0.8f3a91c2";
     Scoreboard.Date_toISOString := "2026-11-02T09:00:00.123Z";
     Scoreboard.faults := [ None; Some (Scoreboard.ThrownError reason) ] |}.

Definition post : string := "t3_abc".

Definition submit (s : JS.number) (message : option string)
  : Scoreboard.SnakeScoreRequest :=
  {| Scoreboard.req_score := s; Scoreboard.req_message := message |}.

(** A store whose high score for [post] is the given text. *)
Definition withHighScore (raw : string) : Scoreboard.Redis :=
  {| Scoreboard.strings :=
       {[ Scoreboard.scoreKey (Scoreboard.snakeKeysForPost post) := raw ]};
     Scoreboard.documents := ∅ |}.

(** A store whose comment log for [post] is the given payload. *)
Definition withLog (p : Scoreboard.payload) : Scoreboard.Redis :=
  {| Scoreboard.strings := ∅;
     Scoreboard.documents :=
       {[ Scoreboard.commentsKey (Scoreboard.snakeKeysForPost post) := p ]} |}.

(** 10.5 and 10^21 as JavaScript numbers. *)
Definition tenAndAHalf : JS.number := JS.Finite false 105 (-1).
Definition tenToThe21 : JS.number := JS.Finite false 1 21.

End Scenarios.

(** * The rest of the client: shape of a session, the board, the feed *)

Module Shape.

Import Game.

(** One of the four headings. *)
Definition unitVector (d : Direction) : Prop :=
  Z.abs (dx d) + Z.abs (dy d) = 1.

(** Two cells one step apart along one axis. *)
Definition adjacent (a b : Cell) : Prop :=
  Z.abs (x a - x b) + Z.abs (y a - y b) = 1.

(** Every cell is adjacent to the next one. *)
Fixpoint contiguous (cells : list Cell) : Prop :=
  match cells with
  | a :: (b :: _) as rest => adjacent a b /\ contiguous rest
  | _ => True
  end.

(** The head is where the committed direction took it from the second cell. *)
Definition headFollows (g : GameSession) : Prop :=
  match snake g with
  | head :: neck :: _ => head = advance neck (direction g)
  | _ => True
  end.

(** What every reachable session satisfies. *)
Record wellFormed (g : GameSession) : Prop := mkWellFormed {
  wf_nonempty : snake g <> [];
  wf_distinct : NoDup (snake g);
  wf_onBoard : Forall onBoard (snake g);
  wf_score : score g = Z.of_nat (length (snake g)) - 1;
  wf_interval : (MIN_TICK_MS <= tickMs g)%Q /\ (tickMs g <= BASE_TICK_MS)%Q;
  wf_direction : unitVector (direction g);
  wf_nextDirection : unitVector (nextDirection g);
  wf_noReverse : isReverse (nextDirection g) (direction g) = false;
  wf_contiguous : contiguous (snake g);
  wf_headFollows : gameOver g = false -> headFollows g;
  wf_over : gameOver g = true -> isRunning g = false
}.

(** The interval as a function of the score alone. *)
Definition intervalAt (points : Z) : Q :=
  Nat.iter (Z.to_nat points) fasterTick BASE_TICK_MS.

(** Where the food and the colour come from: the board and the hue circle. *)
Definition placed (g : GameSession) : Prop :=
  onBoard (food g) /\ 0 <= snakeColor g < 360.

(** Every cell of the board, column by column. *)
Definition everyCell : list Cell :=
  flat_map (fun i => map (fun j => {| x := Z.of_nat i; y := Z.of_nat j |})
                         (seq 0 (Z.to_nat BOARD_SIZE)))
           (seq 0 (Z.to_nat BOARD_SIZE)).

End Shape.

Module Board.

Import Game.

(** ['empty' | 'snake' | 'food'] *)
Inductive Marker := Empty | Snake | Food.

Definition side : nat := Z.to_nat BOARD_SIZE.

(** The two nested loops that push ['empty']. *)
Definition blank : list (list Marker) := repeat (repeat Empty side) side.

(** The guarded assignment [cells[c.y][c.x] = m] of [boardCells]. *)
Definition mark (m : Marker) (c : Cell) (cells : list (list Marker))
  : list (list Marker) :=
  if (y c >=? 0) && (y c <? BOARD_SIZE) && (x c >=? 0) && (x c <? BOARD_SIZE)
  then
    match cells !! Z.to_nat (y c) with
    | Some row => <[Z.to_nat (y c) := <[Z.to_nat (x c) := m]> row]> cells
    | None => cells
    end
  else cells.

(** The [useMemo] body: blank grid, then the snake, then the food. *)
Definition boardCells (snake : list Cell) (food : Cell) : list (list Marker) :=
  mark Food food
    (fold_left (fun cells segment => mark Snake segment cells) snake blank).

(** [cells[y][x]] *)
Definition cellAt (cells : list (list Marker)) (col row : Z) : option Marker :=
  match cells !! Z.to_nat row with
  | Some r => r !! Z.to_nat col
  | None => None
  end.

(** [side] rows of [side] markers each. *)
Definition square (cells : list (list Marker)) : Prop :=
  length cells = side /\ Forall (fun row => length row = side) cells.

End Board.

Module Client.

Import JS Scoreboard.

(** The scoreboard part of the state of [useSnakeGame]. *)
Record Feed := mkFeed {
  username : option string;
  loadingInit : bool;
  error : option string;
  comments : list json;
  commentText : string;
  highScore : number
}.

(** The [useState] initialisers. *)
Definition initialFeed : Feed :=
  {| username := None; loadingInit := true; error := None; comments := [];
     commentText := ""; highScore := zero |}.

(** [res.ok] *)
Definition ok (res : Response) : bool :=
  (200 <=? status res) && (status res <=? 299).

(** The [catch] and [finally] of the init effect. *)
Definition initFailed (f : Feed) : Feed :=
  {| username := username f; loadingInit := false;
     error := Some "Could not load scoreboard – you can still play!";
     comments := comments f; commentText := commentText f;
     highScore := highScore f |}.

(** The init effect, given what [fetch('/api/snake/init')] produced ([None]
    when it rejects). *)
Definition init (fetched : option Response) (f : Feed) : Feed :=
  match fetched with
  | None => initFailed f
  | Some res =>
      if negb (ok res) then initFailed f
      else
        match body res with
        | SnakeInitResponse _ name high log =>
            {| username := Some name; loadingInit := false; error := error f;
               comments := log; commentText := commentText f;
               highScore := high |}
        | _ => initFailed f
        end
  end.

(** [score] of the game as the number sent in the request body. *)
Definition numberOfZ (z : Z) : number :=
  Finite (z <? 0) (Z.to_N (Z.abs z)) 0.

(** [[...prev, comment].slice(-20)] *)
Definition lastTwenty (l : list json) : list json :=
  skipn (length l - 20) l.

Definition shareFailed (f : Feed) : Feed :=
  {| username := username f; loadingInit := loadingInit f;
     error := Some "Could not save your score – try again later.";
     comments := comments f; commentText := commentText f;
     highScore := highScore f |}.

(** [handleShareScore], with [fetch] standing for the POST to
    [/api/snake/score] ([None] when it rejects). *)
Definition handleShareScore (fetch : SnakeScoreRequest -> option Response)
    (score : Z) (f : Feed) : Feed :=
  if score <=? 0 then f
  else
    match fetch {| req_score := numberOfZ score;
                   req_message := Some (commentText f) |} with
    | None => shareFailed f
    | Some res =>
        if negb (ok res) then shareFailed f
        else
          match body res with
          | SnakeScoreResponse _ high _ comment =>
              {| username := username f; loadingInit := loadingInit f;
                 error := error f;
                 comments := match comment with
                             | Some c =>
                                 lastTwenty (comments f ++ [commentJson c])%list
                             | None => comments f
                             end;
                 commentText := "";
                 highScore := high |}
          | _ => f
          end
    end.

(** The client in front of the service: the feed and the store. *)
Definition World : Type := Feed * Redis.

(** The page loads: the init effect against the init route. *)
Definition load (postId : option string) (env : Env) (w : World) : World :=
  let '(res, r, _) := snakeInit postId env (snd w) in
  (init (Some res) (fst w), r).

(** The player posts the score: [handleShareScore] with the submit route
    behind [fetch]. No request is sent when the score is not positive. *)
Definition share (postId : option string) (env : Env) (score : Z) (w : World)
  : World :=
  let service request := snakeScore postId (Parsed request) env (snd w) in
  (handleShareScore (fun request => Some (fst (fst (service request))))
     score (fst w),
   if score <=? 0 then snd w
   else snd (fst (service {| req_score := numberOfZ score;
                             req_message := Some (commentText (fst w)) |}))).

End Client.

(** * The counter route [api.get('/init')] *)

Module Counter.

Import JS Scoreboard.

Inductive CounterBody :=
| CounterError (message : string)
| InitResponse (postId : string) (count : number) (username : string).

Record CounterResponse := mkCounterResponse {
  counter_status : Z;
  counter_body : CounterBody
}.

(** [await Promise.all([a, b])] *)
Definition Promise_all2 {A B} (a : M A) (b : M B) : M (A * B) :=
  let* ra := settle a in
  let* rb := settle b in
  fun st =>
    match ra, rb with
    | Normal x, Normal y => (Normal (x, y), st)
    | Throw t, _ => (Throw t, st)
    | _, Throw t => (Throw t, st)
    end.

(** The [try] block: [count ? parseInt(count) : 0] is the expression the
    snake routes use for the high score. *)
Definition init_try (postId : string) (env : Env) : M CounterBody :=
  let* (count, username) :=
    Promise_all2 (redis_get "count") (reddit_getCurrentUsername env) in
  ret (InitResponse postId (readHighScore count) (orAnonymous username)).

Definition init_route (postId : option string) (env : Env)
  : State -> CounterResponse * State :=
  if missing postId then
    fun st =>
      ({| counter_status := 400;
          counter_body :=
            CounterError "postId is required but missing from context" |}, st)
  else
    let postId := default "" postId in
    fun st =>
      match init_try postId env st with
      | (Normal b, st') => ({| counter_status := 200; counter_body := b |}, st')
      | (Throw error, st') =>
          ({| counter_status := 400;
              counter_body :=
                CounterError
                  (failureMessage "Unknown error during initialization"
                                  "Initialization failed: " error) |}, st')
      end.

Definition init (postId : option string) (env : Env) (r : Redis)
  : CounterResponse * Redis * list (Call * option Thrown) :=
  let '(resp, st) :=
    init_route postId env {| redis := r; pending := faults env; trace := [] |} in
  (resp, redis st, trace st).

End Counter.

(** * Texts *)

Module Text.

(** A text made of white space only (or empty). *)
Definition blank (s : string) : bool :=
  forallb JS.isWhiteSpace (list_ascii_of_string s).

End Text.

(** * More concrete sessions *)

Module MoreScenarios.

Import Game.

(** Start, then ten ticks straight to the right wall. *)
Definition intoTheWall : list Event := ClickStartPause :: repeat Tick 10.

Definition otherPost : string := "t3_xyz".

(** Three posts in a row: 5, then 12 with a message, then 7. *)
Definition threePosts : list (N * option string * Scoreboard.Env) :=
  [ (5%N, None, Scenarios.quiet); (12%N, Some "gg", Scenarios.quiet);
    (7%N, None, Scenarios.quiet) ].

(** The four first calls succeed, the fifth is rejected. *)
Definition failsOnFifth (t : Scoreboard.Thrown) : Scoreboard.Env :=
  {| Scoreboard.currentUsername := Some "alice";
     Scoreboard.Date_now := JS.ofN 1730538000123;
     Scoreboard.Math_random_hex := "0.8f3a91c2";
     Scoreboard.Date_toISOString := "2026-11-02T09:00:00.123Z";
     Scoreboard.faults := [ None; None; None; None; Some t ] |}.

(** A feed after the page loaded on an empty store, with a message typed. *)
Definition typed (text : string) : Client.Feed :=
  {| Client.username := Some "alice"; Client.loadingInit := false;
     Client.error := None; Client.comments := [];
     Client.commentText := text; Client.highScore := JS.zero |}.

End MoreScenarios.

(** * Numerals: printing an integer and reading it back *)

Section NumeralFacts.

Import JS.

Lemma positional_snoc (radix : N) (ds : list N) (d : N) :
  positional radix (ds ++ [d])%list = (positional radix ds * radix + d)%N.
Proof. unfold positional. rewrite fold_left_app. reflexivity. Qed.

Lemma digits_fuel_value (fuel : nat) (n : N) :
  (n < 2 ^ N.of_nat fuel)%N -> positional 10 (digits_fuel fuel n) = n.
Proof.
  revert n. induction fuel as [| fuel IH]; intros n Hn.
  - simpl in Hn. assert (n = 0%N) by lia. subst. reflexivity.
  - cbn [digits_fuel]. destruct (N.ltb_spec n 10) as [Hsmall | Hbig].
    + unfold positional. simpl. lia.
    + rewrite positional_snoc, IH.
      * pose proof (N.div_mod n 10). lia.
      * rewrite Nat2N.inj_succ, N.pow_succ_r' in Hn.
        apply N.Div0.div_lt_upper_bound; lia.
Qed.

Lemma digits_value (n : N) : positional 10 (digits n) = n.
Proof.
  unfold digits. apply digits_fuel_value. rewrite N2Nat.id. apply N.size_gt.
Qed.

Lemma digits_fuel_small (fuel : nat) (n : N) :
  Forall (fun d => (d < 10)%N) (digits_fuel fuel n).
Proof.
  revert n. induction fuel as [| fuel IH]; intros n; [constructor |].
  cbn [digits_fuel]. destruct (N.ltb_spec n 10) as [Hsmall | Hbig].
  - constructor; [exact Hsmall | constructor].
  - apply Forall_app. split; [apply IH |].
    constructor; [| constructor]. apply N.mod_lt. lia.
Qed.

Lemma digits_fuel_length (fuel k : nat) (n : N) :
  (1 <= k)%nat -> (n < 10 ^ N.of_nat k)%N ->
  (length (digits_fuel fuel n) <= k)%nat.
Proof.
  revert k n. induction fuel as [| fuel IH]; intros k n Hk Hn; [simpl; lia |].
  cbn [digits_fuel]. destruct (N.ltb_spec n 10) as [Hsmall | Hbig].
  - simpl. lia.
  - rewrite length_app. simpl.
    destruct k as [| k]; [lia |].
    destruct k as [| k].
    + simpl in Hn. lia.
    + assert (length (digits_fuel fuel (n / 10)) <= S k)%nat; [| lia].
      apply IH; [lia |].
      rewrite (Nat2N.inj_succ (S k)), N.pow_succ_r' in Hn.
      apply N.Div0.div_lt_upper_bound; lia.
Qed.

Lemma digits_nonempty (n : N) : n <> 0%N -> digits n <> [].
Proof.
  intros Hn. unfold digits.
  destruct (N.to_nat (N.size n)) as [| fuel] eqn:Hsize.
  - exfalso. destruct n as [| p]; [contradiction |]. simpl in Hsize. lia.
  - cbn [digits_fuel]. destruct (n <? 10)%N; [discriminate |].
    intros Happ. apply app_eq_nil in Happ. destruct Happ as [_ Hnil].
    discriminate Hnil.
Qed.

Lemma dropZeros_split (l : list N) :
  l = (repeat 0%N (length l - length (dropZeros l)) ++ dropZeros l)%list.
Proof.
  induction l as [| d l IH]; [reflexivity |].
  destruct d as [| p]; [| cbn [dropZeros]; rewrite Nat.sub_diag; reflexivity].
  cbn [dropZeros length].
  assert (Hle : (length (dropZeros l) <= length l)%nat).
  { clear IH. induction l as [| [| q] l IHl]; simpl; lia. }
  replace (S (length l) - length (dropZeros l))%nat
    with (S (length l - length (dropZeros l))) by lia.
  cbn [repeat app]. rewrite <- IH. reflexivity.
Qed.

Lemma repeat_snoc (d : N) (n : nat) :
  (repeat d n ++ [d])%list = d :: repeat d n.
Proof. induction n as [| n IH]; [reflexivity |]. simpl. rewrite IH. reflexivity. Qed.

Lemma rev_repeat (d : N) (n : nat) : rev (repeat d n) = repeat d n.
Proof.
  induction n as [| n IH]; [reflexivity |].
  simpl. rewrite IH. apply repeat_snoc.
Qed.

(** The digits are their significand followed by the zeros it leaves out. *)
Lemma significand_split (ds : list N) :
  ds = (significand ds
        ++ repeat 0%N (length ds - length (significand ds)))%list.
Proof.
  unfold significand. rewrite length_rev.
  pose proof (dropZeros_split (rev ds)) as Hsplit.
  rewrite length_rev in Hsplit.
  apply (f_equal (@rev N)) in Hsplit.
  rewrite rev_involutive, rev_app_distr, rev_repeat in Hsplit.
  exact Hsplit.
Qed.

Lemma numeral_app (a b : list N) :
  numeral (a ++ b)%list = (numeral a ++ numeral b)%string.
Proof.
  unfold numeral. induction a as [| d a IH]; [reflexivity |].
  simpl. rewrite IH. reflexivity.
Qed.

Lemma small_digit_cases (d : N) :
  (d < 10)%N ->
  d = 0%N \/ d = 1%N \/ d = 2%N \/ d = 3%N \/ d = 4%N
  \/ d = 5%N \/ d = 6%N \/ d = 7%N \/ d = 8%N \/ d = 9%N.
Proof. lia. Qed.

Ltac each_digit H :=
  apply small_digit_cases in H;
  destruct H as [-> | [-> | [-> | [-> | [-> | [-> | [-> | [-> | [-> | ->]]]]]]]]].

Lemma digitValue_digitChar (d : N) :
  (d < 10)%N -> digitValue 10 (digitChar d) = Some d.
Proof. intros Hd. each_digit Hd; reflexivity. Qed.

Lemma digitPrefix_numeral (ds : list N) :
  Forall (fun d => (d < 10)%N) ds -> digitPrefix 10 (numeral ds) = ds.
Proof.
  induction 1 as [| d ds Hd _ IH]; [reflexivity |].
  change (numeral (d :: ds)) with (String (digitChar d) (numeral ds)).
  cbn [digitPrefix]. rewrite (digitValue_digitChar d Hd), IH. reflexivity.
Qed.

Lemma numeral_cons (d : N) (ds : list N) :
  numeral (d :: ds) = String (digitChar d) (numeral ds).
Proof. reflexivity. Qed.

(** Reading back a numeral of decimal digits. *)
Lemma parseInt_numeral (d : N) (ds : list N) :
  (d < 10)%N -> Forall (fun d => (d < 10)%N) ds ->
  parseInt (numeral (d :: ds)) = Finite false (positional 10 (d :: ds)) 0.
Proof.
  intros Hd Hds.
  assert (Hprefix : digitPrefix 10 (numeral (d :: ds)) = d :: ds)
    by (apply digitPrefix_numeral; constructor; assumption).
  assert (Htrim : trimStart (numeral (d :: ds)) = numeral (d :: ds)).
  { rewrite numeral_cons. clear Hprefix. each_digit Hd; reflexivity. }
  assert (Hsign : signOf (numeral (d :: ds)) = (false, numeral (d :: ds))).
  { rewrite numeral_cons. clear Hprefix Htrim. each_digit Hd; reflexivity. }
  assert (Hradix : radixOf (numeral (d :: ds)) = (10%N, numeral (d :: ds))).
  { clear Hprefix Htrim Hsign. rewrite numeral_cons.
    destruct ds as [| d' ds'].
    - each_digit Hd; reflexivity.
    - rewrite numeral_cons. inversion Hds as [| ? ? Hd' _]; subst.
      each_digit Hd; try reflexivity. each_digit Hd'; reflexivity. }
  unfold parseInt. rewrite Htrim, Hsign, Hradix, Hprefix. reflexivity.
Qed.

(** How a positive integer below [10^21] prints: as its decimal digits. *)
Lemma positiveToString_integer (n : N) :
  n <> 0%N -> (n < 10 ^ 21)%N -> positiveToString n 0 = numeral (digits n).
Proof.
  intros Hpos Hlt. unfold positiveToString.
  pose proof (significand_split (digits n)) as Hsplit.
  assert (Hlen : (length (digits n) <= 21)%nat).
  { unfold digits. apply digits_fuel_length; [lia | exact Hlt]. }
  assert (Hsig : (length (significand (digits n)) <= length (digits n))%nat).
  { rewrite Hsplit at 2. rewrite length_app. lia. }
  rewrite Z.add_0_r.
  replace (Z.of_nat (length (significand (digits n))) <=? Z.of_nat (length (digits n)))
    with true by (symmetry; apply Z.leb_le; lia).
  replace (Z.of_nat (length (digits n)) <=? 21)
    with true by (symmetry; apply Z.leb_le; lia).
  cbn [andb]. unfold zeros. rewrite <- numeral_app.
  replace (Z.to_nat (Z.of_nat (length (digits n))
                     - Z.of_nat (length (significand (digits n)))))
    with (length (digits n) - length (significand (digits n)))%nat by lia.
  rewrite <- Hsplit. reflexivity.
Qed.

Lemma truthy_numeral (ds : list N) : ds <> [] -> truthy (numeral ds) = true.
Proof. destruct ds; [contradiction | reflexivity]. Qed.

(** An integer below [10^21] is stored as a non-empty text that reads back as
    the same number. *)
Lemma integer_roundtrip (n : N) :
  (n < 10 ^ 21)%N ->
  truthy (Number_toString (ofN n)) = true
  /\ parseInt (Number_toString (ofN n)) = ofN n.
Proof.
  intros Hlt. unfold ofN, Number_toString.
  destruct (N.eqb_spec n 0) as [-> | Hpos]; [split; reflexivity |].
  change (("" ++ positiveToString n 0)%string) with (positiveToString n 0).
  rewrite positiveToString_integer by assumption.
  pose proof (digits_nonempty n Hpos) as Hne.
  pose proof (digits_fuel_small (N.to_nat (N.size n)) n) as Hsmall.
  fold (digits n) in Hsmall.
  split; [apply truthy_numeral; exact Hne |].
  destruct (digits n) as [| d ds] eqn:Hds; [contradiction |].
  inversion Hsmall as [| ? ? Hd Hrest]; subst.
  rewrite parseInt_numeral by assumption.
  rewrite <- Hds, digits_value. reflexivity.
Qed.

End NumeralFacts.

(** * Properties of the simulation engine *)

Import Game.

Section GameFacts.

Variable Math_random : nat -> Q.

Lemma cellsEqual_eq (a b : Cell) : cellsEqual a b = true <-> a = b.
Proof.
  unfold cellsEqual. rewrite andb_true_iff, !Z.eqb_eq.
  destruct a, b; simpl; split.
  - intros [-> ->]; reflexivity.
  - intros [= -> ->]; split; reflexivity.
Qed.

Lemma occupies_In (cells : list Cell) (c : Cell) :
  occupies cells c = true <-> In c cells.
Proof.
  unfold occupies. rewrite existsb_exists. split.
  - intros (s & Hs & Heq). apply cellsEqual_eq in Heq. subst. exact Hs.
  - intros Hin. exists c. split; [exact Hin | apply cellsEqual_eq; reflexivity].
Qed.

Lemma occupies_not_In (cells : list Cell) (c : Cell) :
  occupies cells c = false <-> ~ In c cells.
Proof.
  rewrite <- occupies_In. destruct (occupies cells c); split; intros H;
    try reflexivity; try discriminate; try (intros [=]); exfalso; apply H;
    reflexivity.
Qed.

Lemma outOfBoard_spec (c : Cell) : outOfBoard c = false <-> onBoard c.
Proof.
  unfold outOfBoard, onBoard, BOARD_SIZE.
  rewrite !orb_false_iff, !Z.ltb_ge, !Z.geb_leb, !Z.leb_gt. lia.
Qed.

Lemma outOfBoard_true (c : Cell) : outOfBoard c = true <-> ~ onBoard c.
Proof.
  rewrite <- outOfBoard_spec. destruct (outOfBoard c); split; intros H;
    try reflexivity; try discriminate; exfalso; apply H; reflexivity.
Qed.

Lemma tick_running (g : GameSession) :
  running g -> tick Math_random g = intervalCallback Math_random g.
Proof. intros [Hr Ho]. unfold tick. rewrite Hr, Ho. reflexivity. Qed.

(** A tick whose new head leaves the board or meets the snake is [crash]. *)
Lemma tick_fatal (g : GameSession) (head : Cell) (rest : list Cell) :
  running g -> snake g = head :: rest ->
  ~ onBoard (advance head (nextDirection g))
    \/ In (advance head (nextDirection g)) (snake g) ->
  tick Math_random g = crash g.
Proof.
  intros Hrun Hs Hbad. rewrite tick_running by exact Hrun.
  unfold intervalCallback. rewrite Hs.
  destruct (outOfBoard (advance head (nextDirection g))) eqn:Hout;
    [reflexivity |].
  destruct Hbad as [Hoff | Hin].
  - apply outOfBoard_spec in Hout. contradiction.
  - rewrite <- Hs. apply occupies_In in Hin. rewrite Hin. reflexivity.
Qed.

(** C2. A tick taken while Running whose new head (the head plus the
    buffered direction, which the tick commits) is off the board or on a cell
    of the snake ends the game: [gameOver] is set, [isRunning] is cleared and
    the snake is the one before the tick; food, score and interval stay too. *)
Theorem C2_fatal_tick_preserves_snake
    (g : GameSession) (head : Cell) (rest : list Cell) :
  running g ->
  snake g = head :: rest ->
  ~ onBoard (advance head (nextDirection g))
    \/ In (advance head (nextDirection g)) (snake g) ->
  gameOver (tick Math_random g) = true
  /\ isRunning (tick Math_random g) = false
  /\ snake (tick Math_random g) = snake g
  /\ food (tick Math_random g) = food g
  /\ score (tick Math_random g) = score g
  /\ tickMs (tick Math_random g) = tickMs g.
Proof.
  intros Hrun Hs Hbad.
  rewrite (tick_fatal g head rest Hrun Hs Hbad).
  repeat split; reflexivity.
Qed.

(** C10. With at least two cells, a new head that lands on the cell of the
    tail (the last element), that cell not being the food, ends the game: the
    tail cell counts as occupied although a plain move would free it. *)
Theorem C10_tail_cell_is_fatal
    (g : GameSession) (head : Cell) (rest : list Cell) :
  running g ->
  snake g = head :: rest ->
  (2 <= length (snake g))%nat ->
  last (snake g) = Some (advance head (nextDirection g)) ->
  advance head (nextDirection g) <> food g ->
  gameOver (tick Math_random g) = true
  /\ isRunning (tick Math_random g) = false
  /\ snake (tick Math_random g) = snake g.
Proof.
  intros Hrun Hs _ Hlast _.
  assert (Hin : In (advance head (nextDirection g)) (snake g)).
  { apply list_elem_of_In. eapply last_Some_elem_of. exact Hlast. }
  rewrite (tick_fatal g head rest Hrun Hs (or_intror Hin)).
  repeat split; reflexivity.
Qed.

Lemma keyDirection_not_Shift (key : string) (d : Direction) :
  keyDirection key = Some d -> String.eqb key "Shift" = false.
Proof.
  intros Hk. destruct (String.eqb_spec key "Shift") as [-> | _];
    [discriminate Hk | reflexivity].
Qed.

(** C5. A directional input that is the component-wise negation of the
    committed direction leaves the session, and so the buffered direction, as
    it was; any other directional input overwrites the buffered direction and
    nothing else. After a rejected input the next tick commits the direction
    it would have committed without it; so for committed (1,0) and input
    (-1,0). *)
Theorem C5_reverse_input_rejected
    (g : GameSession) (key : string) (d : Direction) :
  keyDirection key = Some d ->
  (dx d = - dx (direction g) /\ dy d = - dy (direction g) ->
     onKeyDown Math_random key g = g
     /\ nextDirection (onKeyDown Math_random key g) = nextDirection g
     /\ direction (tick Math_random (onKeyDown Math_random key g))
        = direction (tick Math_random g))
  /\ (~ (dx d = - dx (direction g) /\ dy d = - dy (direction g)) ->
     onKeyDown Math_random key g = setNextDirection d g
     /\ nextDirection (onKeyDown Math_random key g) = d)
  /\ (direction g = {| dx := 1; dy := 0 |} ->
      nextDirection (onKeyDown Math_random "ArrowLeft" g) = nextDirection g
      /\ nextDirection (onKeyDown Math_random "a" g) = nextDirection g).
Proof.
  intros Hk. pose proof (keyDirection_not_Shift key d Hk) as Hshift.
  unfold onKeyDown. rewrite Hshift, Hk.
  split; [| split].
  - intros [Hx Hy].
    assert (Hrev : isReverse d (direction g) = true).
    { unfold isReverse. rewrite Hx, Hy, !Z.eqb_refl. reflexivity. }
    rewrite Hrev. repeat split; reflexivity.
  - intros Hnot.
    assert (Hrev : isReverse d (direction g) = false).
    { unfold isReverse. apply andb_false_iff.
      destruct (Z.eqb_spec (dx d) (- dx (direction g))) as [Hx | Hx];
        [| left; reflexivity].
      destruct (Z.eqb_spec (dy d) (- dy (direction g))) as [Hy | Hy];
        [| right; reflexivity].
      exfalso. apply Hnot. split; assumption. }
    rewrite Hrev. split; reflexivity.
  - intros Hdir. simpl. rewrite Hdir. simpl. split; reflexivity.
Qed.

Lemma length_removelast_cons (c : Cell) (l : list Cell) :
  length (removelast (c :: l)) = length l.
Proof.
  revert c. induction l as [| c' l IH]; intros c; [reflexivity |].
  change (removelast (c :: c' :: l)) with (c :: removelast (c' :: l)).
  change (S (length (removelast (c' :: l))) = S (length l)).
  rewrite IH. reflexivity.
Qed.

(** The four outcomes of the timer callback on a non-empty snake. *)
Lemma intervalCallback_cases (g : GameSession) (head : Cell) (rest : list Cell) :
  snake g = head :: rest ->
  let newHead := advance head (nextDirection g) in
  (intervalCallback Math_random g = crash g
   /\ (outOfBoard newHead = true \/ occupies (snake g) newHead = true))
  \/ (outOfBoard newHead = false /\ occupies (snake g) newHead = false
      /\ cellsEqual newHead (food g) = true
      /\ snake (intervalCallback Math_random g) = newHead :: snake g
      /\ gameOver (intervalCallback Math_random g) = gameOver g)
  \/ (outOfBoard newHead = false /\ occupies (snake g) newHead = false
      /\ cellsEqual newHead (food g) = false
      /\ snake (intervalCallback Math_random g)
         = newHead :: removelast (snake g)
      /\ gameOver (intervalCallback Math_random g) = gameOver g).
Proof.
  intros Hs newHead. unfold intervalCallback. rewrite Hs. fold newHead.
  destruct (outOfBoard newHead) eqn:Hout; [left; auto |].
  rewrite <- Hs.
  destruct (occupies (snake g) newHead) eqn:Hocc; [left; auto |].
  destruct (cellsEqual newHead (food g)) eqn:Hfood.
  - right; left. unfold randomColor.
    destruct (generateFood Math_random (newHead :: snake g) (S (draws g)))
      as [f i2].
    repeat split; reflexivity.
  - right; right. repeat split; reflexivity.
Qed.

Lemma step_keeps_snake_nonempty (g : GameSession) (e : Event) :
  snake g <> [] -> snake (step Math_random g e) <> [].
Proof.
  intros Hne.
  assert (Hreset : forall g0, snake (resetGame Math_random g0) <> []).
  { intros g0. unfold resetGame, randomColor.
    destruct (generateFood Math_random _ (draws g0)) as [f i1]. discriminate. }
  assert (Htoggle : snake (toggleOrReset Math_random g) <> []).
  { unfold toggleOrReset. destruct (gameOver g); [apply Hreset | exact Hne]. }
  destruct e as [| key | |]; simpl.
  - unfold tick. destruct (negb (isRunning g) || gameOver g); [exact Hne |].
    destruct (snake g) as [| head rest] eqn:Hs; [contradiction |].
    destruct (intervalCallback_cases g head rest Hs)
      as [[-> _] | [(_ & _ & _ & -> & _) | (_ & _ & _ & -> & _)]];
      simpl; try discriminate. rewrite Hs. discriminate.
  - unfold onKeyDown. destruct (String.eqb key "Shift"); [exact Htoggle |].
    destruct (keyDirection key) as [d |]; [| exact Hne].
    destruct (isReverse d (direction g)); exact Hne.
  - apply Hreset.
  - exact Htoggle.
Qed.

Lemma run_snake_nonempty (events : list Event) :
  snake (run Math_random events) <> [].
Proof.
  unfold run.
  assert (Hinit : snake (initialSession Math_random) <> []).
  { unfold initialSession, randomColor.
    destruct (generateFood Math_random [] 0) as [f i1]. discriminate. }
  revert Hinit. generalize (initialSession Math_random).
  induction events as [| e events IH]; intros g Hg; simpl; [exact Hg |].
  apply IH. apply step_keeps_snake_nonempty. exact Hg.
Qed.

(** C3. In every reachable session (the initial one, and any session after
    resets, ticks and inputs) the snake has at least one cell. A tick taken
    while Running never shortens it, and one that does not end the game
    lengthens it by one if the new head is the food cell and keeps its length
    otherwise. *)
Theorem C3_snake_length (events : list Event) :
  let g := run Math_random events in
  (1 <= length (snake g))%nat
  /\ (running g ->
      (length (snake g) <= length (snake (tick Math_random g)))%nat)
  /\ (running g -> gameOver (tick Math_random g) = false ->
      exists newHead, newHeadOf g = Some newHead
        /\ length (snake (tick Math_random g))
           = if cellsEqual newHead (food g)
             then S (length (snake g)) else length (snake g)).
Proof.
  intros g. pose proof (run_snake_nonempty events) as Hne. fold g in Hne.
  destruct (snake g) as [| head rest] eqn:Hs; [contradiction |].
  split; [simpl; lia |].
  pose proof (intervalCallback_cases g head rest Hs) as Hcases.
  split.
  - intros Hrun. rewrite tick_running by exact Hrun.
    destruct Hcases as [[-> _] | [(_ & _ & _ & -> & _) | (_ & _ & _ & -> & _)]].
    + simpl. rewrite Hs. simpl. lia.
    + rewrite Hs. simpl. lia.
    + rewrite Hs. cbn [length]. rewrite length_removelast_cons. lia.
  - intros Hrun Halive. rewrite tick_running in * by exact Hrun.
    exists (advance head (nextDirection g)).
    split; [unfold newHeadOf; rewrite Hs; reflexivity |].
    destruct Hcases as [[Hc _] | [(_ & _ & Hf & Hsn & _) | (_ & _ & Hf & Hsn & _)]].
    + rewrite Hc in Halive. discriminate Halive.
    + rewrite Hsn, Hf, Hs. reflexivity.
    + rewrite Hsn, Hf, Hs. cbn [length]. rewrite length_removelast_cons.
      reflexivity.
Qed.

Lemma randomInt_range (i : nat) :
  unitInterval Math_random -> 0 <= randomInt Math_random BOARD_SIZE i < BOARD_SIZE.
Proof.
  intros Hunit. destruct (Hunit i) as [Hlo Hhi].
  unfold randomInt, BOARD_SIZE. split.
  - change 0 with (Qfloor 0). apply Qfloor_resp_le.
    apply Qmult_le_0_compat; [exact Hlo | discriminate].
  - apply Z.lt_nge. intros Hge.
    assert (Hq : (inject_Z 20 <= Math_random i * inject_Z 20)%Q).
    { eapply Qle_trans; [| apply Qfloor_le].
      rewrite <- Zle_Qle. exact Hge. }
    assert (Hlt : (Math_random i * inject_Z 20 < 1 * inject_Z 20)%Q).
    { apply Qmult_lt_compat_r; [reflexivity | exact Hhi]. }
    rewrite Qmult_1_l in Hlt.
    exact (Qlt_not_le _ _ Hlt Hq).
Qed.

Lemma candidateAt_onBoard (i : nat) :
  unitInterval Math_random -> onBoard (candidateAt Math_random i).
Proof.
  intros Hunit. split; simpl; apply randomInt_range; exact Hunit.
Qed.

(** What the rejection loop returns: the first free candidate among the
    [attempts] it draws, or (0,0) when all of them are occupied. *)
Lemma generateFood_from_spec (attempts : nat) (cells : list Cell) (i : nat) :
  (exists k, (k < attempts)%nat
     /\ fst (generateFood_from Math_random attempts cells i)
        = candidateAt Math_random (i + 2 * k)
     /\ ~ In (candidateAt Math_random (i + 2 * k)) cells
     /\ (forall j, (j < k)%nat ->
           In (candidateAt Math_random (i + 2 * j)) cells))
  \/ ((forall j, (j < attempts)%nat ->
         In (candidateAt Math_random (i + 2 * j)) cells)
      /\ fst (generateFood_from Math_random attempts cells i)
         = {| x := 0; y := 0 |}).
Proof.
  revert i. induction attempts as [| n IH]; intros i.
  - right. split; [intros j Hj; lia | reflexivity].
  - cbn [generateFood_from].
    destruct (occupies cells (candidateAt Math_random i)) eqn:Hocc;
      cbn [negb fst].
    + apply occupies_In in Hocc.
      destruct (IH (S (S i))) as [(k & Hk & Hf & Hfree & Hbefore) | [Hall Hf]].
      * left. exists (S k).
        replace (i + 2 * S k)%nat with (S (S i) + 2 * k)%nat by lia.
        repeat split; [lia | exact Hf | exact Hfree |].
        intros j Hj. destruct j as [| j].
        -- replace (i + 2 * 0)%nat with i by lia. exact Hocc.
        -- replace (i + 2 * S j)%nat with (S (S i) + 2 * j)%nat by lia.
           apply Hbefore. lia.
      * right. split; [| exact Hf].
        intros j Hj. destruct j as [| j].
        -- replace (i + 2 * 0)%nat with i by lia. exact Hocc.
        -- replace (i + 2 * S j)%nat with (S (S i) + 2 * j)%nat by lia.
           apply Hall. lia.
    + apply occupies_not_In in Hocc. left. exists 0%nat.
      replace (i + 2 * 0)%nat with i by lia.
      repeat split; [lia | exact Hocc |]. intros j Hj. lia.
Qed.

Lemma generateFood_onBoard (cells : list Cell) (i : nat) :
  unitInterval Math_random ->
  onBoard (fst (generateFood Math_random cells i)).
Proof.
  intros Hunit. unfold generateFood.
  destruct (generateFood_from_spec 100 cells i) as [(k & _ & -> & _) | [_ ->]].
  - apply candidateAt_onBoard. exact Hunit.
  - unfold onBoard, BOARD_SIZE. simpl. lia.
Qed.

Lemma fasterTick_spec (prev : Q) :
  ((prev * (9 # 10) < MIN_TICK_MS)%Q -> fasterTick prev = MIN_TICK_MS)
  /\ ((MIN_TICK_MS <= prev * (9 # 10))%Q ->
      fasterTick prev = (prev * (9 # 10))%Q).
Proof.
  unfold fasterTick.
  destruct (Qle_bool MIN_TICK_MS (prev * (9 # 10))) eqn:Hle; simpl; split;
    intros H; try reflexivity.
  - apply Qle_bool_iff in Hle. exfalso. exact (Qlt_not_le _ _ H Hle).
  - apply Qle_bool_iff in H. rewrite H in Hle. discriminate Hle.
Qed.

(** C6, amended. A tick taken while Running whose new head is the food cell
    and passes the boundary and self-collision checks prepends the new head
    and keeps the tail, adds one to the score, and sets the interval to nine
    tenths of the previous one, or to MIN_TICK_MS (150) when that is smaller.
    The new food is the first of 100 drawn candidates that is off the grown
    snake, or (0,0) when all 100 are on it; whatever a snake and the oracle
    position, the generated cell is on the board. *)
Theorem C6_food_pickup
    (g : GameSession) (head : Cell) (rest : list Cell) :
  unitInterval Math_random ->
  running g ->
  snake g = head :: rest ->
  advance head (nextDirection g) = food g ->
  onBoard (advance head (nextDirection g)) ->
  ~ In (advance head (nextDirection g)) (snake g) ->
  let g' := tick Math_random g in
  let grown := advance head (nextDirection g) :: snake g in
  snake g' = grown
  /\ length (snake g') = S (length (snake g))
  /\ score g' = score g + 1
  /\ ((tickMs g * (9 # 10) < MIN_TICK_MS)%Q -> tickMs g' = MIN_TICK_MS)
  /\ ((MIN_TICK_MS <= tickMs g * (9 # 10))%Q ->
      tickMs g' = (tickMs g * (9 # 10))%Q)
  /\ ((exists k, (k < 100)%nat
         /\ food g' = candidateAt Math_random (S (draws g) + 2 * k)
         /\ ~ In (food g') grown)
      \/ ((forall j, (j < 100)%nat ->
             In (candidateAt Math_random (S (draws g) + 2 * j)) grown)
          /\ food g' = {| x := 0; y := 0 |}))
  /\ onBoard (food g')
  /\ (forall cells i, onBoard (fst (generateFood Math_random cells i))).
Proof.
  intros Hunit Hrun Hs Hfood Hboard Hfree g' grown.
  assert (Hg' : g' = intervalCallback Math_random g)
    by (apply tick_running; exact Hrun).
  assert (Hshape : snake g' = grown /\ score g' = score g + 1
                   /\ tickMs g' = fasterTick (tickMs g)
                   /\ food g' = fst (generateFood Math_random grown (S (draws g)))).
  { rewrite Hg'. unfold intervalCallback. rewrite Hs. rewrite <- Hs.
    apply outOfBoard_spec in Hboard. rewrite Hboard.
    apply occupies_not_In in Hfree. rewrite Hfree.
    apply cellsEqual_eq in Hfood. rewrite Hfood.
    unfold randomColor. fold grown.
    destruct (generateFood Math_random grown (S (draws g))) as [f i2].
    repeat split; reflexivity. }
  destruct Hshape as (Hsn & Hsc & Htk & Hfd).
  destruct (fasterTick_spec (tickMs g)) as [Hmin Hscaled].
  repeat split.
  - exact Hsn.
  - rewrite Hsn. reflexivity.
  - exact Hsc.
  - intros H. rewrite Htk. apply Hmin. exact H.
  - intros H. rewrite Htk. apply Hscaled. exact H.
  - rewrite Hfd. unfold generateFood.
    destruct (generateFood_from_spec 100 grown (S (draws g)))
      as [(k & Hk & Hf & Hnot & _) | [Hall Hf]].
    + left. exists k. rewrite Hf. repeat split; [exact Hk | exact Hnot].
    + right. split; [exact Hall | exact Hf].
  - rewrite Hfd. destruct (generateFood_onBoard grown (S (draws g)) Hunit) as [Hx _].
    apply Hx.
  - rewrite Hfd. destruct (generateFood_onBoard grown (S (draws g)) Hunit) as [Hx _].
    apply Hx.
  - rewrite Hfd. destruct (generateFood_onBoard grown (S (draws g)) Hunit) as [_ Hy].
    apply Hy.
  - rewrite Hfd. destruct (generateFood_onBoard grown (S (draws g)) Hunit) as [_ Hy].
    apply Hy.
  - destruct (generateFood_onBoard cells i Hunit) as [Hx _]. apply Hx.
  - destruct (generateFood_onBoard cells i Hunit) as [Hx _]. apply Hx.
  - destruct (generateFood_onBoard cells i Hunit) as [_ Hy]. apply Hy.
  - destruct (generateFood_onBoard cells i Hunit) as [_ Hy]. apply Hy.
Qed.

End GameFacts.

Lemma C2_witness :
  gameOver (Game.tick Scenarios.halves Scenarios.atRightEdge) = true
  /\ isRunning (Game.tick Scenarios.halves Scenarios.atRightEdge) = false
  /\ snake (Game.tick Scenarios.halves Scenarios.atRightEdge)
     = [ Game.mkCell 19 0; Game.mkCell 18 0 ]
  /\ food (Game.tick Scenarios.halves Scenarios.atRightEdge) = Game.mkCell 3 3
  /\ score (Game.tick Scenarios.halves Scenarios.atRightEdge) = 0
  /\ tickMs (Game.tick Scenarios.halves Scenarios.atRightEdge) = Game.BASE_TICK_MS.
Proof.
  apply (C2_fatal_tick_preserves_snake Scenarios.halves Scenarios.atRightEdge
           (Game.mkCell 19 0) [ Game.mkCell 18 0 ]).
  - split; reflexivity.
  - reflexivity.
  - left. unfold Game.onBoard, Game.BOARD_SIZE. simpl. lia.
Defined.

Lemma C10_witness :
  gameOver (Game.tick Scenarios.halves Scenarios.chasingTail) = true
  /\ isRunning (Game.tick Scenarios.halves Scenarios.chasingTail) = false
  /\ snake (Game.tick Scenarios.halves Scenarios.chasingTail)
     = snake Scenarios.chasingTail.
Proof.
  apply (C10_tail_cell_is_fatal Scenarios.halves Scenarios.chasingTail
           (Game.mkCell 5 5)
           [ Game.mkCell 5 6; Game.mkCell 6 6; Game.mkCell 6 5 ]).
  - split; reflexivity.
  - reflexivity.
  - simpl. lia.
  - reflexivity.
  - discriminate.
Defined.

Lemma C5_witness :
  nextDirection (Game.onKeyDown Scenarios.halves "ArrowLeft" Scenarios.beforeFood)
  = Scenarios.right
  /\ direction (Game.tick Scenarios.halves
       (Game.onKeyDown Scenarios.halves "ArrowLeft" Scenarios.beforeFood))
     = Scenarios.right.
Proof.
  destruct (C5_reverse_input_rejected Scenarios.halves Scenarios.beforeFood
              "ArrowLeft" {| Game.dx := -1; Game.dy := 0 |} eq_refl)
    as [Hrej _].
  destruct Hrej as (_ & Hnext & Hdir); [split; reflexivity |].
  split; [exact Hnext | exact Hdir].
Defined.

Lemma halves_unitInterval : unitInterval Scenarios.halves.
Proof. intros i. split; unfold Scenarios.halves, Qle, Qlt; simpl; lia. Qed.

Lemma C3_witness :
  (1 <= length (snake (run Scenarios.halves [ClickStartPause; Tick])))%nat
  /\ length (snake (tick Scenarios.halves
                      (run Scenarios.halves [ClickStartPause; Tick]))) = 1%nat.
Proof.
  destruct (C3_snake_length Scenarios.halves [ClickStartPause; Tick])
    as (Hpos & _ & Hmove).
  split; [exact Hpos |].
  destruct Hmove as (newHead & Hhead & Hlen);
    [split; reflexivity | reflexivity |].
  injection Hhead as <-. exact Hlen.
Defined.

(** C6 as stated fails: after [cornerLoop] the session is Running and the new
    head is the food cell, which is also the cell of the tail; the tick ends
    the game, and neither the snake nor the score changes. *)
Lemma C6_counterexample :
  let g := run Scenarios.cornerOracle Scenarios.cornerLoop in
  running g
  /\ unitInterval Scenarios.cornerOracle
  /\ newHeadOf g = Some (food g)
  /\ last (snake g) = Some (food g)
  /\ gameOver (tick Scenarios.cornerOracle g) = true
  /\ snake (tick Scenarios.cornerOracle g) = snake g
  /\ length (snake (tick Scenarios.cornerOracle g)) <> S (length (snake g))
  /\ Game.score (tick Scenarios.cornerOracle g) <> Game.score g + 1.
Proof.
  split; [split; reflexivity |].
  split.
  { intros i. unfold Scenarios.cornerOracle.
    destruct ((i =? 0)%nat || (i =? 4)%nat || (i =? 5)%nat || (i =? 8)%nat);
      split; unfold Qle, Qlt; simpl; lia. }
  vm_compute. repeat split; try reflexivity; discriminate.
Qed.

Lemma C6_witness :
  snake (tick Scenarios.halves Scenarios.beforeFood)
  = [ mkCell 6 5; mkCell 5 5; mkCell 4 5; mkCell 3 5 ]
  /\ length (snake (tick Scenarios.halves Scenarios.beforeFood)) = 4%nat
  /\ Game.score (tick Scenarios.halves Scenarios.beforeFood) = 1
  /\ tickMs (tick Scenarios.halves Scenarios.beforeFood)
     = (BASE_TICK_MS * (9 # 10))%Q
  /\ onBoard (food (tick Scenarios.halves Scenarios.beforeFood)).
Proof.
  destruct (C6_food_pickup Scenarios.halves Scenarios.beforeFood
              (mkCell 5 5) [ mkCell 4 5; mkCell 3 5 ])
    as (Hsn & Hlen & Hsc & _ & Htk & _ & Hfd & _).
  - exact halves_unitInterval.
  - split; reflexivity.
  - reflexivity.
  - reflexivity.
  - unfold onBoard, BOARD_SIZE. simpl. lia.
  - simpl. intros [H | [H | [H | []]]]; discriminate H.
  - refine (conj Hsn (conj Hlen (conj Hsc (conj (Htk _) Hfd)))).
    unfold Qle. simpl. lia.
Defined.

(** * Properties of the scoreboard service *)

Section ScoreboardFacts.

Import JS Scoreboard.

Lemma keys_differ (postId : string) :
  scoreKey (snakeKeysForPost postId) <> commentsKey (snakeKeysForPost postId).
Proof.
  unfold snakeKeysForPost. cbn [scoreKey commentsKey].
  intros Heq. apply String.app_inj in Heq. discriminate Heq.
Qed.

(** A valid submission that meets no failure: the response, the store after
    it and the calls made. *)
Lemma snakeScore_served (p : string) (rq : SnakeScoreRequest) (env : Env)
    (r : Redis) :
  truthy p = true -> validScore (req_score rq) -> faults env = [] ->
  let keys := snakeKeysForPost p in
  let s := req_score rq in
  let h := storedHighScore p r in
  let trimmed := trimmedMessageOf (req_message rq) in
  let c := makeComment (currentUsername env) s trimmed env in
  let log := capLog (storedComments p r ++ [commentJson c])%list in
  snakeScore (Some p) (Parsed rq) env r
  = (json200 (SnakeScoreResponse p (if gt s h then s else h) (gt s h)
                (if truthy trimmed then Some c else None)),
     {| strings := if gt s h
                   then <[scoreKey keys := Number_toString s]> (strings r)
                   else strings r;
        documents := if truthy trimmed
                     then <[commentsKey keys := Stringified (JArray log)]>
                            (documents r)
                     else documents r |},
     ([ (RedisGet (scoreKey keys), None); (RedisGet (commentsKey keys), None);
        (GetCurrentUsername, None) ]
      ++ (if gt s h then [ (RedisSet (scoreKey keys), None) ] else [])
      ++ (if truthy trimmed then [ (RedisSet (commentsKey keys), None) ] else []))%list).
Proof.
  intros Hp [Hfin Hneg] Hf keys s h trimmed c log.
  unfold snakeScore, serve, onError, snakeScore_route, answer, respond, missing.
  rewrite Hp, Hfin, Hneg. cbn [negb orb default].
  unfold tryCatch, snakeScore_try, Promise_all3, bind, settle, redis_get,
    redis_get_document, reddit_getCurrentUsername, external.
  rewrite Hf.
  cbn -[snakeKeysForPost gt readHighScore Number_toString truthy
        trimmedMessageOf readComments makeComment capLog].
  fold keys s trimmed. unfold storedHighScore in h. fold keys in h. fold h.
  unfold storedComments in log. fold keys in log.
  destruct (gt s h); destruct (truthy trimmed);
    cbn -[snakeKeysForPost gt readHighScore Number_toString truthy
          trimmedMessageOf readComments makeComment capLog];
    destruct r; reflexivity.
Qed.


(** C7. The route departs from the claim on the body [null]. Such a request
    carries no finite score, yet it is not answered 400: with a context
    identifier present, [Number(body.score)] throws before any validation, no
    [try] block encloses it, and the caller receives the 500 of the
    framework. The store is not accessed on this path either. *)
Theorem C7_null_body_is_uncaught (p : string) (env : Env) (r : Redis) :
  truthy p = true ->
  (exists error,
      snakeScore_route (Some p) JsonNull env
        {| redis := r; pending := faults env; trace := [] |}
      = (Throw error, {| redis := r; pending := faults env; trace := [] |}))
  /\ snakeScore (Some p) JsonNull env r
     = ({| status := 500; body := PlainText "Internal Server Error" |}, r, [])
  /\ status (fst (fst (snakeScore (Some p) JsonNull env r))) <> 400.
Proof.
  intros Hp. unfold snakeScore, serve, onError, snakeScore_route, missing.
  rewrite Hp. cbn [negb]. split; [eexists; reflexivity |].
  split; [reflexivity | discriminate].
Qed.

Lemma lt_irrefl (a : number) : lt a a = false.
Proof.
  destruct a as [| [|] | negative s e]; try reflexivity.
  unfold lt. apply Z.ltb_irrefl.
Qed.

Lemma lt_asym (a b : number) : lt a b = true -> lt b a = false.
Proof.
  destruct a as [| [|] | na sa ea], b as [| [|] | nb sb eb];
    simpl; try discriminate; try reflexivity.
  rewrite (Z.min_comm eb ea). intros H. apply Z.ltb_lt in H.
  apply Z.ltb_ge. lia.
Qed.

Lemma parseInt_integral (text : string) : integral (parseInt text).
Proof.
  unfold parseInt. destruct (signOf (trimStart text)) as [negative rest].
  destruct (radixOf rest) as [radix digitsText].
  destruct (digitPrefix radix digitsText); simpl; exact I.
Qed.

Lemma readHighScore_integral (raw : option string) : integral (readHighScore raw).
Proof.
  destruct raw as [text |]; simpl; [| exact I].
  destruct (truthy text); [apply parseInt_integral | exact I].
Qed.

(** Among the values a stored high score can read as, [h < n <= c] gives
    [h <= c]. *)
Lemma not_lt_trans (h c : number) (n : N) :
  integral h -> integral c ->
  lt h (ofN n) = true -> lt c (ofN n) = false -> lt c h = false.
Proof.
  destruct h as [| [|] | nh sh eh], c as [| [|] | nc sc ec]; simpl;
    try contradiction; try discriminate; try reflexivity.
  destruct eh, ec; try contradiction. intros _ _.
  unfold scaled. simpl. rewrite !Z.ltb_lt, !Z.ltb_ge.
  destruct nh, nc; lia.
Qed.

Lemma storedHighScore_insert (p : string) (text : string) (r : Redis)
    (docs : gmap string payload) :
  storedHighScore p
    {| strings := <[scoreKey (snakeKeysForPost p) := text]> (strings r);
       documents := docs |}
  = readHighScore (Some text).
Proof.
  unfold storedHighScore. cbn [strings]. rewrite lookup_insert_eq. reflexivity.
Qed.

(** The stored high score after a served submission. *)
Lemma storedHighScore_after (p : string) (rq : SnakeScoreRequest) (env : Env)
    (r : Redis) :
  truthy p = true -> validScore (req_score rq) -> faults env = [] ->
  let s := req_score rq in
  let h := storedHighScore p r in
  storedHighScore p (snd (fst (snakeScore (Some p) (Parsed rq) env r)))
  = if gt s h then readHighScore (Some (Number_toString s)) else h.
Proof.
  intros Hp Hvalid Hf s h.
  rewrite (snakeScore_served p rq env r Hp Hvalid Hf). cbn [fst snd].
  fold s h. destruct (gt s h).
  - apply storedHighScore_insert.
  - reflexivity.
Qed.

Lemma readHighScore_plain (n : N) :
  (n < 10 ^ 21)%N -> readHighScore (Some (Number_toString (ofN n))) = ofN n.
Proof.
  intros Hn. destruct (integer_roundtrip n Hn) as [Htruthy Hparse].
  unfold readHighScore. rewrite Htruthy. exact Hparse.
Qed.

(** Served one after the other, submissions of plain integers never lower
    the stored high score. *)
Lemma submitAll_monotone (p : string) (subs : list Submission) (r : Redis) :
  truthy p = true ->
  Forall (fun sub => validScore (req_score (fst sub))
                     /\ plainInteger (req_score (fst sub))
                     /\ faults (snd sub) = []) subs ->
  lt (storedHighScore p (submitAll p subs r)) (storedHighScore p r) = false.
Proof.
  intros Hp Hall. revert r.
  induction Hall as [| [rq env] subs (Hvalid & (n & Hs & Hn) & Hf) _ IH];
    intros r; [apply lt_irrefl |].
  cbn [fst snd] in *. unfold submitAll. cbn [fold_left].
  fold (submitAll p subs (snd (fst (snakeScore (Some p) (Parsed rq) env r)))).
  specialize (IH (snd (fst (snakeScore (Some p) (Parsed rq) env r)))).
  rewrite (storedHighScore_after p rq env r Hp Hvalid Hf) in IH.
  cbn zeta in IH. rewrite Hs in IH.
  destruct (gt (ofN n) (storedHighScore p r)) eqn:Hgt; [| exact IH].
  rewrite readHighScore_plain in IH by exact Hn.
  eapply not_lt_trans; [apply readHighScore_integral | apply readHighScore_integral
                        | exact Hgt | exact IH].
Qed.

(** C1, amended. A served submission with a valid score [s], the stored high
    score being [h] (0 if absent), answers [newBest = (s > h)] and
    [highScore = s] if [s > h], [h] otherwise. When [s > h] does not hold the
    high-score key is not written. When [s] is an integer below [10^21], or
    [s > h] does not hold, the stored high score after the request is the
    returned one and is not below [h]; and submissions of such integers served
    one after the other never lower the stored high score. *)
Theorem C1_high_score_update
    (p : string) (rq : SnakeScoreRequest) (env : Env) (r : Redis) :
  truthy p = true -> validScore (req_score rq) -> faults env = [] ->
  let s := req_score rq in
  let h := storedHighScore p r in
  let returned := if gt s h then s else h in
  let '(resp, r', calls) := snakeScore (Some p) (Parsed rq) env r in
  (exists comment,
      resp = json200 (SnakeScoreResponse p returned (gt s h) comment))
  /\ (gt s h = false ->
      strings r' = strings r
      /\ Forall (fun c => fst c <> RedisSet (scoreKey (snakeKeysForPost p))) calls)
  /\ (plainInteger s \/ gt s h = false ->
      storedHighScore p r' = returned
      /\ lt (storedHighScore p r') h = false)
  /\ (forall subs : list Submission,
      Forall (fun sub => validScore (req_score (fst sub))
                         /\ plainInteger (req_score (fst sub))
                         /\ faults (snd sub) = []) subs ->
      lt (storedHighScore p (submitAll p subs r)) h = false).
Proof.
  intros Hp Hvalid Hf s h returned.
  pose proof (storedHighScore_after p rq env r Hp Hvalid Hf) as Hafter.
  rewrite (snakeScore_served p rq env r Hp Hvalid Hf) in *.
  cbn [fst snd] in Hafter. fold s h in Hafter |- *.
  split; [eexists; reflexivity |].
  split; [| split].
  - intros Hgt. rewrite Hgt. split; [reflexivity |].
    pose proof (keys_differ p) as Hkeys.
    destruct (truthy (trimmedMessageOf (req_message rq)));
      repeat constructor; cbn [fst]; congruence.
  - intros Hcase. rewrite Hafter. unfold returned.
    destruct (gt s h) eqn:Hgt.
    + destruct Hcase as [(n & Hs & Hn) | Hno]; [| discriminate Hno].
      rewrite Hs. rewrite readHighScore_plain by exact Hn.
      split; [reflexivity |].
      apply lt_asym. rewrite <- Hs. exact Hgt.
    + split; [reflexivity | apply lt_irrefl].
  - intros subs Hsubs. apply submitAll_monotone; assumption.
Qed.

Lemma capLog_skipn (l : list json) : capLog l = skipn (length l - 20) l.
Proof.
  unfold capLog. destruct (Nat.ltb_spec 20 (length l)) as [Hlong | Hshort];
    [reflexivity |].
  replace (length l - 20)%nat with 0%nat by lia. reflexivity.
Qed.

Lemma capLog_length (l : list json) :
  length (capLog l) = Nat.min 20 (length l).
Proof. rewrite capLog_skipn, length_skipn. lia. Qed.

(** Capping keeps a suffix: what is evicted comes from the front. *)
Lemma capLog_suffix (l : list json) :
  l = (firstn (length l - 20) l ++ capLog l)%list.
Proof. rewrite capLog_skipn. symmetry. apply firstn_skipn. Qed.

Lemma capLog_app (a b : list json) :
  capLog (capLog a ++ b) = capLog (a ++ b).
Proof.
  rewrite (capLog_skipn (capLog a ++ b)), (capLog_skipn (a ++ b)).
  rewrite !length_app, capLog_length.
  rewrite (capLog_skipn a).
  destruct (Nat.le_gt_cases (length a) 20) as [Hshort | Hlong].
  - replace (length a - 20)%nat with 0%nat by lia. cbn [skipn].
    f_equal. lia.
  - rewrite (skipn_app (length a + length b - 20) a b).
    rewrite (skipn_app (Nat.min 20 (length a) + length b - 20)
               (skipn (length a - 20) a) b).
    rewrite length_skipn, skipn_skipn.
    replace (Nat.min 20 (length a) + length b - 20 + (length a - 20))%nat
      with (length a + length b - 20)%nat by lia.
    f_equal. f_equal. lia.
Qed.

(** The stored comment log after a served submission. *)
Lemma storedComments_after (p : string) (rq : SnakeScoreRequest) (env : Env)
    (r : Redis) :
  truthy p = true -> validScore (req_score rq) -> faults env = [] ->
  storedComments p (snd (fst (snakeScore (Some p) (Parsed rq) env r)))
  = if truthy (trimmedMessageOf (req_message rq))
    then capLog (storedComments p r ++ [commentJson (commentOf (rq, env))])%list
    else storedComments p r.
Proof.
  intros Hp Hvalid Hf.
  rewrite (snakeScore_served p rq env r Hp Hvalid Hf). cbn [fst snd].
  unfold commentOf. cbn [fst snd].
  destruct (truthy (trimmedMessageOf (req_message rq))).
  - unfold storedComments at 1. cbn [documents].
    rewrite lookup_insert_eq. reflexivity.
  - reflexivity.
Qed.

Lemma submitAll_cons (p : string) (sub : Submission) (subs : list Submission)
    (r : Redis) :
  submitAll p (sub :: subs) r
  = submitAll p subs
      (snd (fst (snakeScore (Some p) (Parsed (fst sub)) (snd sub) r))).
Proof. reflexivity. Qed.

(** Submissions that each carry a message, served one after the other, leave
    the capped concatenation of the old log and the new comments. *)
Lemma submitAll_log (p : string) (subs : list Submission) (r : Redis) :
  truthy p = true ->
  Forall (fun sub => validScore (req_score (fst sub))
                     /\ faults (snd sub) = []
                     /\ truthy (trimmedMessageOf (req_message (fst sub))) = true)
         subs ->
  capLog (storedComments p (submitAll p subs r))
  = capLog (storedComments p r
            ++ map (fun sub => commentJson (commentOf sub)) subs)%list.
Proof.
  intros Hp Hall. revert r.
  induction Hall as [| [rq env] subs (Hvalid & Hf & Hmsg) _ IH]; intros r.
  - cbn [map]. rewrite app_nil_r. reflexivity.
  - cbn [fst snd] in *. rewrite submitAll_cons. cbn [fst snd].
    rewrite IH, (storedComments_after p rq env r Hp Hvalid Hf), Hmsg.
    rewrite capLog_app. cbn [map]. rewrite <- app_assoc. reflexivity.
Qed.

Lemma submitAll_snoc (p : string) (subs : list Submission) (sub : Submission)
    (r : Redis) :
  submitAll p (subs ++ [sub]) r
  = snd (fst (snakeScore (Some p) (Parsed (fst sub)) (snd sub) (submitAll p subs r))).
Proof. unfold submitAll. rewrite fold_left_app. reflexivity. Qed.

(** After at least one such submission the stored log itself is capped. *)
Lemma submitAll_log_capped (p : string) (subs : list Submission) (r : Redis) :
  truthy p = true -> subs <> [] ->
  Forall (fun sub => validScore (req_score (fst sub))
                     /\ faults (snd sub) = []
                     /\ truthy (trimmedMessageOf (req_message (fst sub))) = true)
         subs ->
  storedComments p (submitAll p subs r)
  = capLog (storedComments p r
            ++ map (fun sub => commentJson (commentOf sub)) subs)%list.
Proof.
  intros Hp Hne Hall.
  destruct (exists_last Hne) as (front & [rq env] & ->).
  apply Forall_app in Hall. destruct Hall as [Hfront Hlast].
  inversion Hlast as [| ? ? (Hvalid & Hf & Hmsg) _]; subst.
  cbn [fst snd] in *.
  rewrite submitAll_snoc. cbn [fst snd].
  rewrite (storedComments_after p rq env _ Hp Hvalid Hf), Hmsg.
  rewrite <- capLog_app, (submitAll_log p front r Hp Hfront), capLog_app.
  rewrite map_app, app_assoc. reflexivity.
Qed.

(** C4. A served submission with a valid score and a non-empty trimmed
    message stores the previous log (empty if absent or malformed) with the
    new comment appended, cut from the front to at most 20 entries: the stored
    log is a suffix of that sequence, so order is kept. After 21 such
    submissions in a row the stored log is exactly the comments of the last
    20 of them, in order. *)
Theorem C4_comment_log_append
    (p : string) (rq : SnakeScoreRequest) (env : Env) (r : Redis) :
  truthy p = true -> validScore (req_score rq) -> faults env = [] ->
  truthy (trimmedMessageOf (req_message rq)) = true ->
  let old := storedComments p r in
  let c := commentOf (rq, env) in
  let '(resp, r', calls) := snakeScore (Some p) (Parsed rq) env r in
  (exists highScore newBest,
      resp = json200 (SnakeScoreResponse p highScore newBest (Some c)))
  /\ message c = slice0 280 (trimmedMessageOf (req_message rq))
  /\ storedComments p r' = capLog (old ++ [commentJson c])%list
  /\ length (storedComments p r') = Nat.min 20 (S (length old))
  /\ (exists evicted,
        (old ++ [commentJson c])%list = (evicted ++ storedComments p r')%list)
  /\ (forall subs : list Submission,
      length subs = 21%nat ->
      Forall (fun sub =>
                validScore (req_score (fst sub))
                /\ faults (snd sub) = []
                /\ truthy (trimmedMessageOf (req_message (fst sub))) = true)
             subs ->
      storedComments p (submitAll p subs r)
      = skipn 1 (map (fun sub => commentJson (commentOf sub)) subs)
      /\ length (storedComments p (submitAll p subs r)) = 20%nat).
Proof.
  intros Hp Hvalid Hf Hmsg old c.
  rewrite (snakeScore_served p rq env r Hp Hvalid Hf).
  rewrite Hmsg.
  match goal with
  | |- context [storedComments p ?R] => set (r' := R)
  end.
  assert (Hafter : storedComments p r' = capLog (old ++ [commentJson c])%list).
  { unfold r', storedComments. cbn [documents].
    rewrite lookup_insert_eq. reflexivity. }
  split; [eexists; eexists; reflexivity |].
  split; [reflexivity |].
  split; [exact Hafter |].
  split; [rewrite Hafter, capLog_length, length_app; cbn [length]; lia |].
  split.
  - rewrite Hafter. eexists. apply capLog_suffix.
  - intros subs Hlen Hsubs.
    assert (Hne : subs <> []) by (destruct subs; [discriminate Hlen | discriminate]).
    rewrite (submitAll_log_capped p subs r Hp Hne Hsubs).
    rewrite capLog_skipn, length_app, length_map, Hlen.
    replace (length (storedComments p r) + 21 - 20)%nat
      with (length (storedComments p r) + 1)%nat by lia.
    rewrite skipn_app, skipn_all2 by lia.
    replace (length (storedComments p r) + 1 - length (storedComments p r))%nat
      with 1%nat by lia.
    split; [reflexivity |].
    cbn [app]. rewrite length_skipn, length_map, Hlen. reflexivity.
Qed.

(** Closes a goal about a request whose calls and response are explicit:
    either a call threw and the response is the error built from the first
    thrown value, or none did. *)
Ltac settle_outcome :=
  split;
  [ intros Hnone;
    first [ discriminate Hnone
          | split; [reflexivity | do 3 eexists; reflexivity] ]
  | intros Hsome;
    first [ exfalso; apply Hsome; reflexivity
          | eexists; split; [left; reflexivity | reflexivity] ] ].

Ltac evaluate_route :=
  cbn -[snakeKeysForPost gt readHighScore Number_toString truthy
        trimmedMessageOf readComments makeComment capLog failureMessage].

(** C9, amended. When a call to the store (or to the identity provider) of a
    valid submission throws, the caller receives a structured error with
    status 400, the status also used for validation failures, whose message
    is [Saving score failed: ] followed by the message of the thrown [Error],
    or [Unknown error while saving score] when the thrown value is not an
    [Error]. No failure is swallowed: a success response is sent only when no
    call threw. *)
Theorem C9_store_failure_reported
    (p : string) (rq : SnakeScoreRequest) (env : Env) (r : Redis) :
  truthy p = true -> validScore (req_score rq) ->
  let '(resp, r', calls) := snakeScore (Some p) (Parsed rq) env r in
  (thrownBy calls = [] ->
     status resp = 200
     /\ exists highScore newBest comment,
          body resp = SnakeScoreResponse p highScore newBest comment)
  /\ (thrownBy calls <> [] ->
      exists t, In t (thrownBy calls)
        /\ resp = json400 (ErrorResponse
                    (failureMessage "Unknown error while saving score"
                                    "Saving score failed: " t))).
Proof.
  intros Hp [Hfin Hneg].
  unfold snakeScore, serve, onError, snakeScore_route, answer, respond, missing.
  rewrite Hp, Hfin, Hneg. cbn [negb orb default].
  unfold tryCatch, snakeScore_try, Promise_all3, bind, settle, redis_get,
    redis_get_document, reddit_getCurrentUsername, external.
  generalize (faults env) as fs. intros fs.
  destruct fs as [| [t1 |] [| [t2 |] [| [t3 |] fs]]]; evaluate_route;
    try settle_outcome.
  all: destruct (gt (req_score rq)
                    (readHighScore (strings r !! scoreKey (snakeKeysForPost p))));
    unfold redis_set, ret, external; evaluate_route;
    try (destruct fs as [| [t4 |] fs]; evaluate_route);
    try settle_outcome.
  all: destruct (truthy (trimmedMessageOf (req_message rq)));
    unfold redis_set_document, ret, external; evaluate_route;
    try (destruct fs as [| [t5 |] fs]; evaluate_route);
    settle_outcome.
Qed.

Lemma readComments_defaults (raw : option payload) :
  (raw = None -> readComments raw = [])
  /\ (forall text, raw = Some (Unparsable text) -> readComments raw = [])
  /\ (forall v, raw = Some (Stringified v) ->
        (forall items, v <> JArray items) -> readComments raw = []).
Proof.
  repeat split.
  - intros ->. reflexivity.
  - intros text ->. simpl. destruct (truthy text); reflexivity.
  - intros v -> Hshape. simpl.
    destruct v as [| b | n | s | items | fields]; try reflexivity.
    exfalso. exact (Hshape items eq_refl).
Qed.

(** C8. The init route never writes: the store after it is the store before
    it and none of its calls is a [redis.set]. When its three reads succeed it
    answers 200 with the stored high score and comments as both routes read
    them: the high score is 0 when its key is absent, and the comment list is
    empty when its key is absent, holds a text that does not parse, or holds a
    value that is not an array; such a payload does not make the route fail. *)
Theorem C8_init_defaults (postId : option string) (env : Env) (r : Redis) :
  let '(resp, r', calls) := snakeInit postId env r in
  r' = r
  /\ Forall (fun c => isWrite c = false) calls
  /\ (forall p, postId = Some p -> truthy p = true -> thrownBy calls = [] ->
      let keys := snakeKeysForPost p in
      resp = json200 (SnakeInitResponse p (orAnonymous (currentUsername env))
                        (storedHighScore p r) (storedComments p r))
      /\ (strings r !! scoreKey keys = None -> storedHighScore p r = zero)
      /\ (documents r !! commentsKey keys = None -> storedComments p r = [])
      /\ (forall text, documents r !! commentsKey keys = Some (Unparsable text) ->
            storedComments p r = [])
      /\ (forall v, documents r !! commentsKey keys = Some (Stringified v) ->
            (forall items, v <> JArray items) -> storedComments p r = [])).
Proof.
  unfold snakeInit, serve, snakeInit_route.
  destruct (missing postId) eqn:Hmissing.
  - cbn. split; [reflexivity |]. split; [constructor |].
    intros p -> Hp. unfold missing in Hmissing. rewrite Hp in Hmissing.
    discriminate Hmissing.
  - unfold tryCatch, snakeInit_try, Promise_all3, bind, settle, redis_get,
      redis_get_document, reddit_getCurrentUsername, external.
    generalize (faults env) as fs. intros fs.
    destruct fs as [| [t1 |] [| [t2 |] [| [t3 |] fs]]]; evaluate_route.
    all: split; [reflexivity |].
    all: split; [repeat constructor |].
    all: intros p -> Hp Hnone; try discriminate Hnone.
    all: cbn [default]; split; [reflexivity |].
    all: destruct (readComments_defaults
                     (documents r !! commentsKey (snakeKeysForPost p)))
           as (Habsent & Htext & Hshape).
    all: unfold storedHighScore, storedComments.
    all: split; [intros ->; reflexivity |].
    all: split; [exact Habsent |].
    all: split; [exact Htext | exact Hshape].
Qed.

End ScoreboardFacts.

Import JS Scoreboard.

Lemma C1_witness :
  let '(resp, r', calls) :=
    snakeScore (Some Scenarios.post) (Parsed (Scenarios.submit (ofN 20) None))
      Scenarios.quiet (Scenarios.withHighScore "15") in
  (exists comment,
      resp = json200 (SnakeScoreResponse Scenarios.post (ofN 20) true comment))
  /\ storedHighScore Scenarios.post r' = ofN 20
  /\ lt (storedHighScore Scenarios.post r') (ofN 15) = false.
Proof.
  pose proof (C1_high_score_update Scenarios.post
                (Scenarios.submit (ofN 20) None) Scenarios.quiet
                (Scenarios.withHighScore "15")
                eq_refl (conj eq_refl eq_refl) eq_refl) as H.
  destruct (snakeScore (Some Scenarios.post)
              (Parsed (Scenarios.submit (ofN 20) None))
              Scenarios.quiet (Scenarios.withHighScore "15"))
    as [[resp r'] calls].
  destruct H as (Hresp & _ & Hstored & _).
  split; [exact Hresp |].
  apply Hstored. left. exists 20%N. split; reflexivity.
Defined.

(** C1 as stated fails for valid scores that are not plain integers. A score
    of 10.5 on an empty store is answered with [highScore = 10.5], but the
    stored high score then reads 10, which is also what the init route
    returns. A score of 10^21 over a stored 7 is answered with
    [highScore = 10^21] and leaves a stored high score that reads 1, below
    the 7 it replaced. *)
Lemma C1_counterexample :
  (let '(resp, r', _) :=
     snakeScore (Some Scenarios.post)
       (Parsed (Scenarios.submit Scenarios.tenAndAHalf None))
       Scenarios.quiet noData in
   validScore Scenarios.tenAndAHalf
   /\ resp = json200 (SnakeScoreResponse Scenarios.post Scenarios.tenAndAHalf
                        true None)
   /\ storedHighScore Scenarios.post r' = ofN 10
   /\ storedHighScore Scenarios.post r' <> Scenarios.tenAndAHalf
   /\ fst (fst (snakeInit (Some Scenarios.post) Scenarios.quiet r'))
      = json200 (SnakeInitResponse Scenarios.post "alice" (ofN 10) []))
  /\ (let '(resp, r', _) :=
        snakeScore (Some Scenarios.post)
          (Parsed (Scenarios.submit Scenarios.tenToThe21 None))
          Scenarios.quiet (Scenarios.withHighScore "7") in
      validScore Scenarios.tenToThe21
      /\ resp = json200 (SnakeScoreResponse Scenarios.post Scenarios.tenToThe21
                           true None)
      /\ storedHighScore Scenarios.post (Scenarios.withHighScore "7") = ofN 7
      /\ storedHighScore Scenarios.post r' = ofN 1
      /\ lt (storedHighScore Scenarios.post r')
            (storedHighScore Scenarios.post (Scenarios.withHighScore "7"))
         = true).
Proof.
  vm_compute. repeat split; try reflexivity; discriminate.
Qed.

Lemma C4_witness :
  let '(resp, r', calls) :=
    snakeScore (Some Scenarios.post)
      (Parsed (Scenarios.submit (ofN 12) (Some "  good game  ")))
      Scenarios.quiet noData in
  storedComments Scenarios.post r'
  = [ commentJson {| id := "1730538000123-8f3a91c2"; username := "alice";
                     score := ofN 12; message := "good game";
                     createdAt := "2026-11-02T09:00:00.123Z" |} ]
  /\ length (storedComments Scenarios.post r') = 1%nat.
Proof.
  pose proof (C4_comment_log_append Scenarios.post
                (Scenarios.submit (ofN 12) (Some "  good game  "))
                Scenarios.quiet noData
                eq_refl (conj eq_refl eq_refl) eq_refl eq_refl) as H.
  destruct (snakeScore (Some Scenarios.post)
              (Parsed (Scenarios.submit (ofN 12) (Some "  good game  ")))
              Scenarios.quiet noData)
    as [[resp r'] calls].
  destruct H as (_ & _ & Hlog & Hlen & _).
  split; [exact Hlog | exact Hlen].
Defined.


Lemma C7_null_body_witness :
  snakeScore (Some Scenarios.post) JsonNull Scenarios.quiet
    (Scenarios.withHighScore "15")
  = ({| status := 500; body := PlainText "Internal Server Error" |},
     Scenarios.withHighScore "15", [])
  /\ status (fst (fst (snakeScore (Some Scenarios.post) JsonNull Scenarios.quiet
                         (Scenarios.withHighScore "15")))) <> 400.
Proof.
  destruct (C7_null_body_is_uncaught Scenarios.post Scenarios.quiet
              (Scenarios.withHighScore "15") eq_refl) as (_ & Hanswer & Hstatus).
  split; [exact Hanswer | exact Hstatus].
Defined.

Lemma C8_witness :
  let '(resp, r', calls) :=
    snakeInit (Some Scenarios.post) Scenarios.quiet
      (Scenarios.withLog (Unparsable "{not json")) in
  r' = Scenarios.withLog (Unparsable "{not json")
  /\ resp = json200 (SnakeInitResponse Scenarios.post "alice" zero []).
Proof.
  pose proof (C8_init_defaults (Some Scenarios.post) Scenarios.quiet
                (Scenarios.withLog (Unparsable "{not json"))) as H.
  destruct (snakeInit (Some Scenarios.post) Scenarios.quiet
              (Scenarios.withLog (Unparsable "{not json")))
    as [[resp r'] calls] eqn:Hrun.
  destruct H as (Hsame & _ & Hread).
  split; [exact Hsame |].
  assert (Hcalls : thrownBy calls = []).
  { vm_compute in Hrun. injection Hrun as _ _ <-. reflexivity. }
  destruct (Hread Scenarios.post eq_refl eq_refl Hcalls)
    as (Hresp & Hscore & _ & Htext & _).
  rewrite Hresp, (Hscore eq_refl), (Htext "{not json" eq_refl).
  reflexivity.
Defined.

Lemma C9_witness :
  let '(resp, r', calls) :=
    snakeScore (Some Scenarios.post) (Parsed (Scenarios.submit (ofN 12) None))
      (Scenarios.flaky "ECONNRESET") noData in
  exists t, In t (thrownBy calls)
    /\ resp = json400 (ErrorResponse
                (failureMessage "Unknown error while saving score"
                                "Saving score failed: " t)).
Proof.
  pose proof (C9_store_failure_reported Scenarios.post
                (Scenarios.submit (ofN 12) None)
                (Scenarios.flaky "ECONNRESET") noData
                eq_refl (conj eq_refl eq_refl)) as H.
  destruct (snakeScore (Some Scenarios.post)
              (Parsed (Scenarios.submit (ofN 12) None))
              (Scenarios.flaky "ECONNRESET") noData)
    as [[resp r'] calls] eqn:Hrun.
  destruct H as (_ & Hfailed).
  apply Hfailed.
  vm_compute in Hrun. injection Hrun as _ _ <-. discriminate.
Defined.

(** C9 as stated fails: a read of the store that throws is answered with
    status 400, the status of a validation failure and not a server-error
    status, and the message carries the text of the thrown error, so two
    different failures give two different messages. *)
Lemma C9_counterexample :
  let failing reason :=
    fst (fst (snakeScore (Some Scenarios.post)
                (Parsed (Scenarios.submit (ofN 12) None))
                (Scenarios.flaky reason) noData)) in
  let invalid :=
    fst (fst (snakeScore (Some Scenarios.post)
                (Parsed (Scenarios.submit (Finite true 1 0) None))
                Scenarios.quiet noData)) in
  failing "ECONNRESET"
  = json400 (ErrorResponse "Saving score failed: ECONNRESET")
  /\ failing "ETIMEDOUT"
     = json400 (ErrorResponse "Saving score failed: ETIMEDOUT")
  /\ failing "ECONNRESET" <> failing "ETIMEDOUT"
  /\ status (failing "ECONNRESET") = 400
  /\ ~ (500 <= status (failing "ECONNRESET") < 600)
  /\ status (failing "ECONNRESET") = status invalid.
Proof.
  vm_compute. repeat split; try reflexivity; try discriminate.
  intros [H _]. apply H. reflexivity.
Qed.

(** * Invariants of the sessions the engine can reach *)

Section ShapeFacts.

Import Game Shape.

Variable Math_random : nat -> Q.

Lemma keyDirection_unit (key : string) (d : Direction) :
  keyDirection key = Some d -> unitVector d.
Proof.
  unfold keyDirection.
  repeat match goal with
         | |- context [String.eqb key ?k] => destruct (String.eqb key k)
         end; cbn [orb]; intros [= <-]; reflexivity.
Qed.

Lemma unit_not_own_reverse (d : Direction) :
  unitVector d -> isReverse d d = false.
Proof.
  unfold unitVector, isReverse. intros Hd.
  apply andb_false_iff.
  destruct (Z.eqb_spec (dx d) (- dx d)) as [Hx | Hx]; [| left; reflexivity].
  destruct (Z.eqb_spec (dy d) (- dy d)) as [Hy | Hy]; [| right; reflexivity].
  lia.
Qed.

Lemma advance_adjacent (c : Cell) (d : Direction) :
  unitVector d -> adjacent (advance c d) c.
Proof.
  unfold unitVector, adjacent, advance. cbn [x y]. intros Hd.
  replace (x c + dx d - x c) with (dx d) by lia.
  replace (y c + dy d - y c) with (dy d) by lia. exact Hd.
Qed.

Lemma In_removelast (c : Cell) (l : list Cell) :
  In c (removelast l) -> In c l.
Proof.
  induction l as [| a l IH]; [intros [] |].
  destruct l as [| b l]; [intros [] |].
  change (removelast (a :: b :: l)) with (a :: removelast (b :: l)).
  intros [-> | Hin]; [left; reflexivity | right; apply IH; exact Hin].
Qed.

Lemma NoDup_removelast (l : list Cell) : NoDup l -> NoDup (removelast l).
Proof.
  induction 1 as [| a l Hnot _ IH]; [constructor |].
  destruct l as [| b l]; [constructor |].
  change (removelast (a :: b :: l)) with (a :: removelast (b :: l)).
  constructor; [| exact IH].
  intros Hin. apply Hnot. apply list_elem_of_In, In_removelast, list_elem_of_In.
  exact Hin.
Qed.

Lemma Forall_removelast (P : Cell -> Prop) (l : list Cell) :
  Forall P l -> Forall P (removelast l).
Proof.
  intros Hall. apply Forall_forall. intros c Hin.
  rewrite Forall_forall in Hall. apply Hall.
  apply list_elem_of_In, In_removelast, list_elem_of_In. exact Hin.
Qed.

Lemma contiguous_removelast (l : list Cell) :
  contiguous l -> contiguous (removelast l).
Proof.
  induction l as [| a l IH]; [intros _; exact I |].
  destruct l as [| b l]; [intros _; exact I |].
  intros [Hab Hrest].
  change (removelast (a :: b :: l)) with (a :: removelast (b :: l)).
  specialize (IH Hrest).
  destruct l as [| c l]; [exact I |].
  change (removelast (b :: c :: l)) with (b :: removelast (c :: l)) in *.
  split; [exact Hab | exact IH].
Qed.

Lemma fasterTick_bounds (prev : Q) :
  (MIN_TICK_MS <= prev)%Q -> (prev <= BASE_TICK_MS)%Q ->
  (MIN_TICK_MS <= fasterTick prev)%Q
  /\ (fasterTick prev <= BASE_TICK_MS)%Q
  /\ (fasterTick prev <= prev)%Q.
Proof.
  unfold fasterTick, MIN_TICK_MS, BASE_TICK_MS. intros Hlo Hhi.
  destruct (Qle_bool (150 # 1) (prev * (9 # 10))) eqn:Hle; cbn [negb].
  - apply Qle_bool_iff in Hle. repeat split; lra.
  - repeat split; lra.
Qed.

Lemma fresh_wellFormed (f : Cell) (c : Z) (started : bool) (i : nat) :
  wellFormed {| snake := [ {| x := center; y := center |} ];
                direction := {| dx := 1; dy := 0 |};
                nextDirection := {| dx := 1; dy := 0 |};
                food := f; snakeColor := c; score := 0; gameOver := false;
                isRunning := started; tickMs := BASE_TICK_MS; draws := i |}.
Proof.
  constructor; cbn [snake direction nextDirection score gameOver isRunning tickMs].
  - discriminate.
  - apply NoDup_singleton.
  - repeat constructor; vm_compute; intros H; discriminate H.
  - reflexivity.
  - split; [discriminate | apply Qle_refl].
  - reflexivity.
  - reflexivity.
  - reflexivity.
  - exact I.
  - intros _. exact I.
  - discriminate.
Qed.

Lemma initialSession_wellFormed : wellFormed (initialSession Math_random).
Proof.
  unfold initialSession, randomColor.
  destruct (generateFood Math_random [] 0) as [f i1]. apply fresh_wellFormed.
Qed.

Lemma resetGame_wellFormed (g : GameSession) :
  wellFormed (resetGame Math_random g).
Proof.
  unfold resetGame, randomColor.
  destruct (generateFood Math_random _ (draws g)) as [f i1].
  apply fresh_wellFormed.
Qed.

Lemma toggleOrReset_wellFormed (g : GameSession) :
  wellFormed g -> wellFormed (toggleOrReset Math_random g).
Proof.
  intros Hwf. unfold toggleOrReset.
  destruct (gameOver g) eqn:Hover; [apply resetGame_wellFormed |].
  destruct Hwf as [? ? ? ? ? ? ? ? ? Hfollow ?].
  constructor; cbn [snake direction nextDirection score gameOver isRunning
                    tickMs]; try assumption.
  - intros _. exact (Hfollow Hover).
  - discriminate.
Qed.

Lemma onKeyDown_wellFormed (key : string) (g : GameSession) :
  wellFormed g -> wellFormed (onKeyDown Math_random key g).
Proof.
  intros Hwf. unfold onKeyDown.
  destruct (String.eqb key "Shift"); [apply toggleOrReset_wellFormed; exact Hwf |].
  destruct (keyDirection key) as [d |] eqn:Hkey; [| exact Hwf].
  destruct (isReverse d (direction g)) eqn:Hrev; [exact Hwf |].
  destruct Hwf. constructor; cbn [setNextDirection snake direction nextDirection
                                   score gameOver isRunning tickMs];
    try assumption.
  eapply keyDirection_unit. exact Hkey.
Qed.

Lemma crash_wellFormed (g : GameSession) : wellFormed g -> wellFormed (crash g).
Proof.
  intros Hwf. destruct Hwf.
  constructor; cbn [crash snake direction nextDirection score gameOver
                    isRunning tickMs]; try assumption.
  - apply unit_not_own_reverse. assumption.
  - discriminate.
  - reflexivity.
Qed.

Lemma intervalCallback_wellFormed (g : GameSession) :
  wellFormed g -> gameOver g = false ->
  wellFormed (intervalCallback Math_random g).
Proof.
  intros Hwf Halive. pose proof (crash_wellFormed g Hwf) as Hcrash.
  destruct Hwf as [Hne Hdistinct Hboard Hscore [Hlo Hhi] Hdir Hnext Hrev
                     Hchain Hfollow Hover].
  unfold intervalCallback.
  destruct (snake g) as [| head rest] eqn:Hs; [contradiction |].
  set (newHead := advance head (nextDirection g)).
  destruct (outOfBoard newHead) eqn:Hout; [exact Hcrash |].
  destruct (occupies (head :: rest) newHead) eqn:Hocc; [exact Hcrash |].
  apply outOfBoard_spec in Hout. apply occupies_not_In in Hocc.
  pose proof (fasterTick_bounds (tickMs g) Hlo Hhi) as (Hlo' & Hhi' & _).
  pose proof (unit_not_own_reverse _ Hnext) as Hown.
  pose proof (advance_adjacent head _ Hnext) as Hadj. fold newHead in Hadj.
  destruct (cellsEqual newHead (food g)).
  - unfold randomColor.
    destruct (generateFood Math_random (newHead :: head :: rest) (S (draws g)))
      as [f i2].
    constructor; cbn [snake direction nextDirection score gameOver isRunning
                      tickMs]; try assumption.
    + discriminate.
    + constructor; [| exact Hdistinct].
      intros Hin. apply Hocc. apply list_elem_of_In. exact Hin.
    + constructor; [exact Hout | exact Hboard].
    + rewrite Hscore. cbn [length]. lia.
    + split; assumption.
    + split; [exact Hadj | exact Hchain].
    + intros _. unfold headFollows. cbn [snake direction]. reflexivity.
  - constructor; cbn [snake direction nextDirection score gameOver isRunning
                      tickMs]; try assumption.
    + discriminate.
    + constructor; [| apply NoDup_removelast; exact Hdistinct].
      intros Hin. apply Hocc. apply In_removelast, list_elem_of_In. exact Hin.
    + constructor; [exact Hout | apply Forall_removelast; exact Hboard].
    + rewrite Hscore. cbn [length]. rewrite length_removelast_cons.
      reflexivity.
    + split; assumption.
    + pose proof (contiguous_removelast _ Hchain) as Hshort.
      destruct rest as [| neck rest']; [exact I |].
      change (removelast (head :: neck :: rest'))
        with (head :: removelast (neck :: rest')) in *.
      split; [exact Hadj | exact Hshort].
    + intros _. unfold headFollows. cbn [snake direction].
      destruct rest as [| neck rest']; [exact I |].
      change (removelast (head :: neck :: rest'))
        with (head :: removelast (neck :: rest')). reflexivity.
Qed.

Lemma step_wellFormed (g : GameSession) (e : Event) :
  wellFormed g -> wellFormed (step Math_random g e).
Proof.
  intros Hwf. destruct e as [| key | |]; cbn [step].
  - unfold tick. destruct (isRunning g); cbn [negb orb]; [| exact Hwf].
    destruct (gameOver g) eqn:Hover; [exact Hwf |].
    apply intervalCallback_wellFormed; assumption.
  - apply onKeyDown_wellFormed. exact Hwf.
  - apply resetGame_wellFormed.
  - apply toggleOrReset_wellFormed. exact Hwf.
Qed.

(** Every session the engine reaches is well formed. *)
Lemma run_wellFormed (events : list Event) :
  wellFormed (run Math_random events).
Proof.
  unfold run. generalize initialSession_wellFormed.
  generalize (initialSession Math_random).
  induction events as [| e events IH]; intros g Hg; cbn [fold_left];
    [exact Hg |].
  apply IH. apply step_wellFormed. exact Hg.
Qed.

(** A property kept by every event from well-formed sessions holds in every
    reachable session. *)
Lemma run_invariant (P : GameSession -> Prop) :
  P (initialSession Math_random) ->
  (forall g e, wellFormed g -> P g -> P (step Math_random g e)) ->
  forall events, P (run Math_random events).
Proof.
  intros Hinit Hstep events. unfold run.
  pose proof initialSession_wellFormed as Hwf. revert Hwf Hinit.
  generalize (initialSession Math_random).
  induction events as [| e events IH]; intros g Hwf Hg; cbn [fold_left];
    [exact Hg |].
  apply IH; [apply step_wellFormed; exact Hwf | apply Hstep; assumption].
Qed.

Lemma randomInt_bounds (max : Z) (i : nat) :
  unitInterval Math_random -> 0 < max ->
  0 <= randomInt Math_random max i < max.
Proof.
  intros Hunit Hmax. destruct (Hunit i) as [Hlo Hhi]. unfold randomInt.
  assert (Hpos : (0 < inject_Z max)%Q) by (unfold Qlt; simpl; lia).
  split.
  - change 0 with (Qfloor 0). apply Qfloor_resp_le.
    apply Qmult_le_0_compat; [exact Hlo | apply Qlt_le_weak; exact Hpos].
  - apply Z.lt_nge. intros Hge.
    assert (Hq : (inject_Z max <= Math_random i * inject_Z max)%Q).
    { eapply Qle_trans; [| apply Qfloor_le]. rewrite <- Zle_Qle. exact Hge. }
    assert (Hlt : (Math_random i * inject_Z max < 1 * inject_Z max)%Q).
    { apply Qmult_lt_compat_r; [exact Hpos | exact Hhi]. }
    rewrite Qmult_1_l in Hlt. exact (Qlt_not_le _ _ Hlt Hq).
Qed.

Lemma step_interval_of_score (g : GameSession) (e : Event) :
  wellFormed g -> tickMs g = intervalAt (score g) ->
  tickMs (step Math_random g e) = intervalAt (score (step Math_random g e)).
Proof.
  intros Hwf Hg.
  assert (Hreset : forall g0, tickMs (resetGame Math_random g0)
                              = intervalAt (score (resetGame Math_random g0))).
  { intros g0. unfold resetGame, randomColor.
    destruct (generateFood Math_random _ (draws g0)) as [f i1]. reflexivity. }
  assert (Htoggle : tickMs (toggleOrReset Math_random g)
                    = intervalAt (score (toggleOrReset Math_random g))).
  { unfold toggleOrReset. destruct (gameOver g); [apply Hreset | exact Hg]. }
  destruct e as [| key | |]; cbn [step].
  - unfold tick. destruct (negb (isRunning g) || gameOver g); [exact Hg |].
    unfold intervalCallback.
    destruct (snake g) as [| head rest] eqn:Hs; [exact Hg |].
    destruct (outOfBoard _); [exact Hg |].
    destruct (occupies _ _); [exact Hg |].
    destruct (cellsEqual _ _); [| exact Hg].
    unfold randomColor. destruct (generateFood Math_random _ _) as [f i2].
    cbn [tickMs score]. rewrite Hg. unfold intervalAt.
    pose proof (wf_score g Hwf) as Hscore.
    rewrite Hs in Hscore. cbn [length] in Hscore.
    replace (Z.to_nat (score g + 1)) with (S (Z.to_nat (score g))) by lia.
    reflexivity.
  - unfold onKeyDown. destruct (String.eqb key "Shift"); [exact Htoggle |].
    destruct (keyDirection key) as [d |]; [| exact Hg].
    destruct (isReverse d (direction g)); exact Hg.
  - apply Hreset.
  - exact Htoggle.
Qed.

Lemma tick_interval_le (g : GameSession) :
  wellFormed g -> (tickMs (tick Math_random g) <= tickMs g)%Q.
Proof.
  intros Hwf. destruct (wf_interval g Hwf) as [Hlo Hhi].
  unfold tick. destruct (negb (isRunning g) || gameOver g); [apply Qle_refl |].
  unfold intervalCallback.
  destruct (snake g) as [| head rest]; [apply Qle_refl |].
  destruct (outOfBoard _); [apply Qle_refl |].
  destruct (occupies _ _); [apply Qle_refl |].
  destruct (cellsEqual _ _); [| apply Qle_refl].
  unfold randomColor. destruct (generateFood Math_random _ _) as [f i2].
  cbn [tickMs]. apply fasterTick_bounds; assumption.
Qed.

Lemma step_placed (g : GameSession) (e : Event) :
  unitInterval Math_random -> placed g -> placed (step Math_random g e).
Proof.
  intros Hunit Hg.
  assert (Hreset : forall g0, placed (resetGame Math_random g0)).
  { intros g0. unfold resetGame, randomColor.
    pose proof (generateFood_onBoard Math_random
                  [ {| x := center; y := center |} ] (draws g0) Hunit) as Hf.
    destruct (generateFood Math_random _ (draws g0)) as [f i1].
    split; [exact Hf | apply randomInt_bounds; [exact Hunit | lia]]. }
  assert (Htoggle : placed (toggleOrReset Math_random g)).
  { unfold toggleOrReset. destruct (gameOver g); [apply Hreset | exact Hg]. }
  destruct e as [| key | |]; cbn [step].
  - unfold tick. destruct (negb (isRunning g) || gameOver g); [exact Hg |].
    unfold intervalCallback.
    destruct (snake g) as [| head rest] eqn:Hs; [exact Hg |].
    destruct (outOfBoard _); [exact Hg |].
    destruct (occupies _ _); [exact Hg |].
    destruct (cellsEqual _ _); [| exact Hg].
    unfold randomColor.
    pose proof (generateFood_onBoard Math_random
                  (advance head (nextDirection g) :: head :: rest)
                  (S (draws g)) Hunit) as Hf.
    destruct (generateFood Math_random _ _) as [f i2].
    split; [exact Hf | apply randomInt_bounds; [exact Hunit | lia]].
  - unfold onKeyDown. destruct (String.eqb key "Shift"); [exact Htoggle |].
    destruct (keyDirection key) as [d |]; [| exact Hg].
    destruct (isReverse d (direction g)); exact Hg.
  - apply Hreset.
  - exact Htoggle.
Qed.

Lemma initialSession_placed :
  unitInterval Math_random -> placed (initialSession Math_random).
Proof.
  intros Hunit. unfold initialSession, randomColor.
  pose proof (generateFood_onBoard Math_random [] 0 Hunit) as Hf.
  destruct (generateFood Math_random [] 0) as [f i1].
  split; [exact Hf | apply randomInt_bounds; [exact Hunit | lia]].
Qed.

(** X1. In every reachable session the cells of the snake are pairwise
    distinct. *)
Theorem reachable_cells_distinct (events : list Event) :
  NoDup (snake (run Math_random events)).
Proof. apply wf_distinct, run_wellFormed. Qed.

(** X2. In every reachable session every cell of the snake is on the
    board. *)
Theorem reachable_cells_on_board (events : list Event) :
  Forall onBoard (snake (run Math_random events)).
Proof. apply wf_onBoard, run_wellFormed. Qed.

(** X3. In every reachable session the score is the number of cells the
    snake has grown by: its length minus one. *)
Theorem reachable_score_is_growth (events : list Event) :
  score (run Math_random events)
  = Z.of_nat (length (snake (run Math_random events))) - 1.
Proof. apply wf_score, run_wellFormed. Qed.

(** X4. In every reachable session the tick interval lies between
    MIN_TICK_MS and BASE_TICK_MS, a tick never raises it, and it is the
    interval the score alone determines: BASE_TICK_MS sped up once per
    point. *)
Theorem reachable_interval (events : list Event) :
  let g := run Math_random events in
  (MIN_TICK_MS <= tickMs g)%Q
  /\ (tickMs g <= BASE_TICK_MS)%Q
  /\ (tickMs (tick Math_random g) <= tickMs g)%Q
  /\ tickMs g = Nat.iter (Z.to_nat (score g)) fasterTick BASE_TICK_MS.
Proof.
  intros g. pose proof (run_wellFormed events) as Hwf. fold g in Hwf.
  destruct (wf_interval g Hwf) as [Hlo Hhi].
  repeat split; try assumption.
  - apply tick_interval_le. exact Hwf.
  - unfold g. apply (run_invariant (fun g => tickMs g = intervalAt (score g))).
    + unfold initialSession, randomColor.
      destruct (generateFood Math_random [] 0) as [f i1]. reflexivity.
    + intros g0 e. apply step_interval_of_score.
Qed.

(** X5. In a reachable session that is not over, the buffered direction
    never points from the head back to the second cell: no input makes the
    snake run into its own neck. *)
Theorem reachable_no_reversal
    (events : list Event) (head neck : Cell) (rest : list Cell) :
  gameOver (run Math_random events) = false ->
  snake (run Math_random events) = head :: neck :: rest ->
  advance head (nextDirection (run Math_random events)) <> neck.
Proof.
  intros Halive Hs. pose proof (run_wellFormed events) as Hwf.
  pose proof (wf_headFollows _ Hwf Halive) as Hfollow.
  pose proof (wf_noReverse _ Hwf) as Hrev.
  unfold headFollows in Hfollow. rewrite Hs in Hfollow.
  intros Hback. rewrite Hfollow in Hback.
  pose proof (f_equal x Hback) as Hx. pose proof (f_equal y Hback) as Hy.
  unfold advance in Hx, Hy. cbn [x y] in Hx, Hy.
  unfold isReverse in Hrev. apply andb_false_iff in Hrev.
  destruct Hrev as [Hne | Hne]; apply Z.eqb_neq in Hne; lia.
Qed.

(** X6. In a reachable session the game-over flag implies that the timer is
    stopped, so a finished game stays as it is under ticks; a directional key
    then changes at most the buffered direction, and the control key starts a
    new game: one cell at the centre, score 0, the base interval, running. *)
Theorem reachable_game_over_is_final (events : list Event) :
  let g := run Math_random events in
  gameOver g = true ->
  isRunning g = false
  /\ tick Math_random g = g
  /\ (forall key, key <> "Shift" ->
        let g' := onKeyDown Math_random key g in
        snake g' = snake g /\ score g' = score g /\ food g' = food g
        /\ gameOver g' = true /\ isRunning g' = false)
  /\ (let g' := onKeyDown Math_random "Shift" g in
      snake g' = [ {| x := 10; y := 10 |} ] /\ score g' = 0
      /\ tickMs g' = BASE_TICK_MS /\ gameOver g' = false
      /\ isRunning g' = true).
Proof.
  intros g Hover. pose proof (run_wellFormed events) as Hwf. fold g in Hwf.
  pose proof (wf_over g Hwf Hover) as Hstopped.
  split; [exact Hstopped |].
  split; [unfold tick; rewrite Hstopped; reflexivity |].
  split.
  - intros key Hkey g'. unfold g', onKeyDown.
    apply String.eqb_neq in Hkey. rewrite Hkey.
    destruct (keyDirection key) as [d |]; [| repeat split; assumption].
    destruct (isReverse d (direction g)); repeat split; assumption.
  - unfold onKeyDown. cbn [String.eqb]. change (String.eqb "Shift" "Shift") with true.
    cbn iota. unfold toggleOrReset. rewrite Hover.
    unfold resetGame, randomColor.
    destruct (generateFood Math_random _ (draws g)) as [f i1].
    repeat split.
Qed.

(** X7. A reset never puts the food on the snake: the rejection loop skips
    the start cell, and its fallback (0,0) is not the start cell either. The
    first session of a page has no such guarantee: its food is drawn against
    an empty snake and lands on the start cell when the oracle says so. *)
Theorem reset_food_off_snake (g : GameSession) :
  ~ In (food (resetGame Math_random g)) (snake (resetGame Math_random g))
  /\ (candidateAt Math_random 0 = {| x := 10; y := 10 |} ->
      In (food (initialSession Math_random))
         (snake (initialSession Math_random))).
Proof.
  split.
  - unfold resetGame, randomColor, generateFood.
    pose proof (generateFood_from_spec Math_random 100
                  [ {| x := center; y := center |} ] (draws g)) as Hspec.
    destruct (generateFood_from Math_random 100 _ (draws g)) as [f i1].
    cbn [fst snake food] in *.
    destruct Hspec as [(k & _ & -> & Hfree & _) | [_ ->]]; [exact Hfree |].
    intros [H | []]. discriminate H.
  - intros Hfirst. unfold initialSession, randomColor, generateFood.
    cbn [generateFood_from occupies existsb negb]. rewrite Hfirst.
    left. reflexivity.
Qed.

(** X8. In every reachable session each cell of the snake is one step, along
    one axis, from the next cell. *)
Theorem reachable_contiguous (events : list Event) :
  contiguous (snake (run Math_random events)).
Proof. apply wf_contiguous, run_wellFormed. Qed.

(** X9. When [Math.random()] keeps to [0, 1), in every reachable session the
    food is on the board and the hue of the snake is in [0, 360). *)
Theorem reachable_food_on_board (events : list Event) :
  unitInterval Math_random ->
  onBoard (food (run Math_random events))
  /\ 0 <= snakeColor (run Math_random events) < 360.
Proof.
  intros Hunit. apply (run_invariant placed).
  - apply initialSession_placed. exact Hunit.
  - intros g e _. apply step_placed. exact Hunit.
Qed.

End ShapeFacts.

Lemma X5_witness :
  advance (mkCell 0 1)
    (nextDirection (run Scenarios.cornerOracle Scenarios.cornerLoop))
  <> mkCell 1 1.
Proof.
  apply (reachable_no_reversal Scenarios.cornerOracle Scenarios.cornerLoop
           (mkCell 0 1) (mkCell 1 1) [ mkCell 1 0; mkCell 0 0 ]);
    vm_compute; reflexivity.
Defined.

Lemma X6_witness :
  isRunning (run Scenarios.halves MoreScenarios.intoTheWall) = false
  /\ tick Scenarios.halves (run Scenarios.halves MoreScenarios.intoTheWall)
     = run Scenarios.halves MoreScenarios.intoTheWall.
Proof.
  destruct (reachable_game_over_is_final Scenarios.halves
              MoreScenarios.intoTheWall) as (Hstopped & Hfrozen & _).
  - vm_compute. reflexivity.
  - split; [exact Hstopped | exact Hfrozen].
Defined.

Lemma X9_witness :
  Game.onBoard (Game.food (run Scenarios.halves [ClickStartPause; Tick]))
  /\ 0 <= snakeColor (run Scenarios.halves [ClickStartPause; Tick]) < 360.
Proof.
  apply (reachable_food_on_board Scenarios.halves [ClickStartPause; Tick]).
  exact halves_unitInterval.
Defined.

(** * The board that is drawn *)

Section BoardFacts.

Import Game Board.

Lemma blank_square : square blank.
Proof.
  unfold square, blank. split; [apply repeat_length |].
  apply Forall_forall. intros row Hrow.
  apply list_elem_of_In, repeat_spec in Hrow. subst. apply repeat_length.
Qed.

Lemma mark_square (m : Marker) (c : Cell) (cells : list (list Marker)) :
  square cells -> square (mark m c cells).
Proof.
  intros [Hrows Hcols]. unfold mark.
  destruct ((y c >=? 0) && (y c <? BOARD_SIZE) && (x c >=? 0)
            && (x c <? BOARD_SIZE)); [| split; assumption].
  destruct (cells !! Z.to_nat (y c)) as [row |] eqn:Hrow; [| split; assumption].
  split; [rewrite length_insert; exact Hrows |].
  apply Forall_insert; [exact Hcols |].
  rewrite length_insert.
  rewrite Forall_forall in Hcols. apply Hcols.
  eapply list_elem_of_lookup_2. exact Hrow.
Qed.

(** Reading a cell after one guarded assignment. *)
Lemma cellAt_mark (m : Marker) (c : Cell) (cells : list (list Marker))
    (col row : Z) :
  square cells -> 0 <= col < BOARD_SIZE -> 0 <= row < BOARD_SIZE ->
  cellAt (mark m c cells) col row
  = if cellsEqual c {| x := col; y := row |} then Some m
    else cellAt cells col row.
Proof.
  intros [Hrows Hcols] Hcol Hrow. unfold BOARD_SIZE in *.
  unfold mark, cellsEqual, BOARD_SIZE. cbn [x y].
  destruct ((y c >=? 0) && (y c <? 20) && (x c >=? 0) && (x c <? 20)) eqn:Hin.
  - rewrite !andb_true_iff, Z.geb_leb, Z.leb_le, !Z.ltb_lt, Z.geb_leb, Z.leb_le
      in Hin.
    destruct Hin as [[[Hy0 Hy1] Hx0] Hx1].
    assert (Hlt : (Z.to_nat (y c) < length cells)%nat)
      by (rewrite Hrows; unfold side, BOARD_SIZE; lia).
    destruct (lookup_lt_is_Some_2 cells _ Hlt) as [r Hr]. rewrite Hr.
    assert (Hlen : length r = side).
    { rewrite Forall_forall in Hcols. apply Hcols.
      eapply list_elem_of_lookup_2. exact Hr. }
    unfold cellAt.
    destruct (Z.eqb_spec (y c) row) as [Hy | Hy].
    + replace (Z.to_nat row) with (Z.to_nat (y c)) by (rewrite Hy; reflexivity).
      rewrite list_lookup_insert_eq by exact Hlt. rewrite Hr.
      destruct (Z.eqb_spec (x c) col) as [Hx | Hx]; cbn [andb].
      * replace (Z.to_nat col) with (Z.to_nat (x c)) by (rewrite Hx; reflexivity).
        apply list_lookup_insert_eq. rewrite Hlen. unfold side, BOARD_SIZE. lia.
      * apply list_lookup_insert_ne. lia.
    + rewrite andb_false_r.
      rewrite list_lookup_insert_ne by lia. reflexivity.
  - replace ((x c =? col) && (y c =? row)) with false; [reflexivity |].
    symmetry. apply andb_false_iff.
    destruct (Z.eqb_spec (x c) col) as [Hx | Hx]; [| left; reflexivity].
    destruct (Z.eqb_spec (y c) row) as [Hy | Hy]; [| right; reflexivity].
    exfalso. subst.
    rewrite !andb_false_iff, Z.geb_leb, Z.leb_gt, !Z.ltb_ge, Z.geb_leb, Z.leb_gt
      in Hin. lia.
Qed.

Lemma lookup_repeat {A} (a : A) (n i : nat) :
  (i < n)%nat -> repeat a n !! i = Some a.
Proof.
  revert i. induction n as [| n IH]; intros i Hi; [lia |].
  destruct i as [| i]; [reflexivity |]. cbn [repeat]. apply IH. lia.
Qed.

Lemma cellAt_blank (col row : Z) :
  0 <= col < BOARD_SIZE -> 0 <= row < BOARD_SIZE ->
  cellAt blank col row = Some Empty.
Proof.
  unfold BOARD_SIZE. intros Hcol Hrow. unfold cellAt, blank.
  rewrite lookup_repeat by (unfold side, BOARD_SIZE; lia).
  apply lookup_repeat. unfold side, BOARD_SIZE. lia.
Qed.

Lemma snake_marks (cells0 : list Cell) (cells : list (list Marker)) :
  square cells ->
  square (fold_left (fun acc segment => mark Snake segment acc) cells0 cells)
  /\ forall col row, 0 <= col < BOARD_SIZE -> 0 <= row < BOARD_SIZE ->
       cellAt (fold_left (fun acc segment => mark Snake segment acc) cells0 cells)
              col row
       = if occupies cells0 {| x := col; y := row |} then Some Snake
         else cellAt cells col row.
Proof.
  revert cells. induction cells0 as [| segment rest IH]; intros cells Hsq.
  - split; [exact Hsq | reflexivity].
  - cbn [fold_left]. destruct (IH (mark Snake segment cells)) as [Hsq' Hread];
      [apply mark_square; exact Hsq |].
    split; [exact Hsq' |].
    intros col row Hcol Hrow. rewrite Hread by assumption.
    rewrite cellAt_mark by assumption.
    unfold occupies. cbn [existsb]. fold (occupies rest {| x := col; y := row |}).
    destruct (occupies rest {| x := col; y := row |});
      [rewrite orb_true_r; reflexivity |].
    rewrite orb_false_r. reflexivity.
Qed.

(** X10. The grid that is drawn has BOARD_SIZE rows of BOARD_SIZE markers;
    the marker at column [col] of row [row] is [food] when the food is there,
    else [snake] when a cell of the snake is there, else [empty]. Cells of the
    snake or a food off the board mark nothing. *)
Theorem boardCells_shows_session
    (cells : list Cell) (f : Cell) (col row : Z) :
  0 <= col < BOARD_SIZE -> 0 <= row < BOARD_SIZE ->
  square (boardCells cells f)
  /\ cellAt (boardCells cells f) col row
     = Some (if cellsEqual f {| x := col; y := row |} then Food
             else if occupies cells {| x := col; y := row |} then Snake
             else Empty).
Proof.
  intros Hcol Hrow. unfold boardCells.
  destruct (snake_marks cells blank blank_square) as [Hsq Hread].
  split; [apply mark_square; exact Hsq |].
  rewrite cellAt_mark by assumption.
  destruct (cellsEqual f {| x := col; y := row |}); [reflexivity |].
  rewrite Hread by assumption.
  destruct (occupies cells {| x := col; y := row |}); [reflexivity |].
  apply cellAt_blank; assumption.
Qed.

End BoardFacts.

Lemma X10_witness :
  Board.cellAt (Board.boardCells (snake Scenarios.beforeFood)
                  (Game.food Scenarios.beforeFood)) 6 5 = Some Board.Food
  /\ Board.cellAt (Board.boardCells (snake Scenarios.beforeFood)
                     (Game.food Scenarios.beforeFood)) 4 5 = Some Board.Snake.
Proof.
  split.
  - apply (boardCells_shows_session (snake Scenarios.beforeFood)
             (Game.food Scenarios.beforeFood) 6 5);
      unfold BOARD_SIZE; lia.
  - apply (boardCells_shows_session (snake Scenarios.beforeFood)
             (Game.food Scenarios.beforeFood) 4 5);
      unfold BOARD_SIZE; lia.
Defined.

(** * More about the scoreboard service *)

Ltac evaluate_call :=
  cbn -[snakeKeysForPost gt readHighScore Number_toString truthy
        trimmedMessageOf readComments makeComment capLog failureMessage
        storedHighScore storedComments].

(** Runs a route on a symbolic fault schedule, one case per outcome of each
    call it makes. *)
Ltac explore_route :=
  unfold tryCatch, snakeScore_try, snakeInit_try, Promise_all3, bind, settle,
    redis_get, redis_get_document, reddit_getCurrentUsername, redis_set,
    redis_set_document, ret, external;
  match goal with
  | |- context [faults ?env] => generalize (faults env)
  end;
  let fs := fresh "fs" in
  intros fs; evaluate_call;
  repeat match goal with
         | |- context [match ?l with [] => _ | _ :: _ => _ end] =>
             is_var l; destruct l as [| [? |] l]; evaluate_call
         | |- context [if gt ?a ?b then _ else _] =>
             destruct (gt a b) eqn:?; evaluate_call
         | |- context [if truthy (trimmedMessageOf ?m) then _ else _] =>
             destruct (truthy (trimmedMessageOf m)) eqn:?; evaluate_call
         end.

Section MoreScoreboardFacts.

Import JS Scoreboard.

Lemma length_append (a b : string) :
  String.length (a ++ b) = (String.length a + String.length b)%nat.
Proof.
  induction a as [| c a IH]; [reflexivity |].
  change ((String c a ++ b)%string) with (String c (a ++ b)).
  cbn [String.length]. rewrite IH. reflexivity.
Qed.

Lemma append_inv_tail (a b t : string) :
  (a ++ t)%string = (b ++ t)%string -> a = b.
Proof.
  revert b. induction a as [| c a IH]; intros [| d b] Heq.
  - reflexivity.
  - apply (f_equal String.length) in Heq.
    rewrite !length_append in Heq. cbn [String.length] in Heq. lia.
  - apply (f_equal String.length) in Heq.
    rewrite !length_append in Heq. cbn [String.length] in Heq. lia.
  - change ((String c a ++ t)%string) with (String c (a ++ t)) in Heq.
    change ((String d b ++ t)%string) with (String d (b ++ t)) in Heq.
    injection Heq as -> Hrest. f_equal. apply IH. exact Hrest.
Qed.

(** Two contexts share no key. *)
Lemma snakeKeysForPost_inj (p q : string) :
  scoreKey (snakeKeysForPost p) = scoreKey (snakeKeysForPost q)
  \/ commentsKey (snakeKeysForPost p) = commentsKey (snakeKeysForPost q) ->
  p = q.
Proof.
  unfold snakeKeysForPost. cbn [scoreKey commentsKey].
  intros [Heq | Heq]; apply append_inv_tail in Heq;
    apply String.app_inj in Heq; exact Heq.
Qed.

(** Whatever happens to a submission, a key other than the two keys of its
    context reads as before. *)
Lemma snakeScore_frame (p : string) (request : RequestBody)
    (env : Env) (r : Redis) :
  let r' := snd (fst (snakeScore (Some p) request env r)) in
  (forall k, k <> scoreKey (snakeKeysForPost p) ->
     strings r' !! k = strings r !! k)
  /\ (forall k, k <> commentsKey (snakeKeysForPost p) ->
        documents r' !! k = documents r !! k).
Proof.
  unfold snakeScore, serve, onError, snakeScore_route, answer, respond.
  destruct (missing (Some p)); [split; reflexivity |].
  destruct request as [| | rq]; [split; reflexivity | split; reflexivity |].
  destruct (negb (isFinite (req_score rq)) || lt (req_score rq) zero);
    [split; reflexivity |].
  cbn [default]. explore_route.
  all: split; intros k Hk; try reflexivity.
  all: rewrite lookup_insert_ne by congruence; reflexivity.
Qed.

(** The init route served without a failure. *)
Lemma snakeInit_served (p : string) (env : Env) (r : Redis) :
  truthy p = true -> faults env = [] ->
  snakeInit (Some p) env r
  = (json200 (SnakeInitResponse p (orAnonymous (currentUsername env))
                (storedHighScore p r) (storedComments p r)),
     r,
     [ (RedisGet (scoreKey (snakeKeysForPost p)), None);
       (RedisGet (commentsKey (snakeKeysForPost p)), None);
       (GetCurrentUsername, None) ]).
Proof.
  intros Hp Hf. unfold snakeInit, serve, snakeInit_route, missing.
  rewrite Hp. cbn [negb default].
  unfold tryCatch, snakeInit_try, Promise_all3, bind, settle, redis_get,
    redis_get_document, reddit_getCurrentUsername, external.
  rewrite Hf. reflexivity.
Qed.

Lemma validScore_ofN (n : N) : validScore (ofN n).
Proof.
  split; [reflexivity |]. unfold lt, ofN, zero, scaled.
  change (Z.min 0 0) with 0. change (10 ^ (0 - 0)) with 1.
  apply Z.ltb_ge. lia.
Qed.

Lemma gt_ofN (a b : N) : gt (ofN a) (ofN b) = (b <? a)%N.
Proof.
  unfold gt, lt, ofN, scaled.
  change (Z.min 0 0) with 0. change (10 ^ (0 - 0)) with 1.
  destruct (N.ltb_spec b a); [apply Z.ltb_lt | apply Z.ltb_ge]; lia.
Qed.

(** X11. A submission for one context changes nothing that another context
    reads: whatever the request and whichever calls fail, the stored high
    score and the stored comments of every other context are as before. *)
Theorem submissions_stay_in_their_context
    (p q : string) (request : RequestBody) (env : Env)
    (r : Redis) :
  p <> q ->
  let r' := snd (fst (snakeScore (Some p) request env r)) in
  storedHighScore q r' = storedHighScore q r
  /\ storedComments q r' = storedComments q r.
Proof.
  intros Hpq r'. destruct (snakeScore_frame p request env r) as [Hs Hd].
  fold r' in Hs, Hd. unfold storedHighScore, storedComments.
  rewrite Hs, Hd; [split; reflexivity | |];
    intros Heq; apply Hpq; symmetry; apply snakeKeysForPost_inj; auto.
Qed.

(** X12. Read after write: when a valid submission of an integer below
    [10^21] and the init request that follows it are both served, the init
    response carries the high score of the submit response, and its comment
    list ends with the comment the submission created, if it created one. *)
Theorem init_after_submit
    (p : string) (n : N) (text : option string) (env env' : Env) (r : Redis) :
  truthy p = true -> (n < 10 ^ 21)%N -> faults env = [] -> faults env' = [] ->
  let '(submitted, r', _) :=
    snakeScore (Some p) (Parsed {| req_score := ofN n; req_message := text |})
      env r in
  let '(loaded, _, _) := snakeInit (Some p) env' r' in
  exists highScore newBest comment log,
    submitted = json200 (SnakeScoreResponse p highScore newBest comment)
    /\ loaded = json200 (SnakeInitResponse p (orAnonymous (currentUsername env'))
                           highScore log)
    /\ (forall c, comment = Some c -> last log = Some (commentJson c)).
Proof.
  intros Hp Hn Hf Hf'.
  pose (rq := {| req_score := ofN n; req_message := text |}).
  pose proof (storedHighScore_after p rq env r Hp (validScore_ofN n) Hf) as Hhigh.
  pose proof (storedComments_after p rq env r Hp (validScore_ofN n) Hf) as Hlog.
  fold rq. rewrite (snakeScore_served p rq env r Hp (validScore_ofN n) Hf) in *.
  cbn [fst snd req_score req_message rq] in *.
  match type of Hhigh with storedHighScore p ?R = _ => set (r' := R) in * end.
  rewrite (snakeInit_served p env' r' Hp Hf').
  exists (if gt (ofN n) (storedHighScore p r) then ofN n else storedHighScore p r),
    (gt (ofN n) (storedHighScore p r)),
    (if truthy (trimmedMessageOf text)
     then Some (makeComment (currentUsername env) (ofN n)
                  (trimmedMessageOf text) env)
     else None),
    (storedComments p r').
  split; [reflexivity |]. split.
  - rewrite Hhigh. destruct (gt (ofN n) (storedHighScore p r)); [| reflexivity].
    rewrite readHighScore_plain by exact Hn. reflexivity.
  - intros c Hc. rewrite Hlog.
    destruct (truthy (trimmedMessageOf text)); [| discriminate Hc].
    injection Hc as <-. unfold commentOf. cbn [fst snd req_score req_message].
    rewrite capLog_skipn, length_app. cbn [length].
    rewrite skipn_app.
    replace (length (storedComments p r) + 1 - 20 - length (storedComments p r))%nat
      with 0%nat by lia.
    cbn [skipn]. apply last_snoc.
Qed.

Lemma submitAll_max (p : string) (entries : list (N * option string * Env))
    (r : Redis) (k : N) :
  truthy p = true ->
  Forall (fun e => (fst (fst e) < 10 ^ 21)%N /\ faults (snd e) = []) entries ->
  storedHighScore p r = ofN k ->
  storedHighScore p
    (submitAll p
       (map (fun e => ({| req_score := ofN (fst (fst e));
                          req_message := snd (fst e) |}, snd e)) entries) r)
  = ofN (fold_left N.max (map (fun e => fst (fst e)) entries) k).
Proof.
  intros Hp Hall. revert r k.
  induction Hall as [| [[n text] env] entries [Hn Hf] _ IH]; intros r k Hk;
    [exact Hk |].
  cbn [map fst snd] in *. rewrite submitAll_cons. cbn [fst snd fold_left].
  apply IH.
  rewrite (storedHighScore_after p {| req_score := ofN n; req_message := text |}
             env r Hp (validScore_ofN n) Hf).
  cbn [req_score]. rewrite Hk, gt_ofN.
  destruct (N.ltb_spec k n) as [Hlt | Hge].
  - rewrite readHighScore_plain by exact Hn. f_equal. lia.
  - f_equal. lia.
Qed.

(** X13. Served one after the other on a store whose high score reads [k],
    submissions of integers below [10^21] leave a stored high score that is
    the largest of [k] and the submitted scores. *)
Theorem high_score_is_maximum
    (p : string) (entries : list (N * option string * Env)) (r : Redis) (k : N) :
  truthy p = true ->
  Forall (fun e => (fst (fst e) < 10 ^ 21)%N /\ faults (snd e) = []) entries ->
  storedHighScore p r = ofN k ->
  storedHighScore p
    (submitAll p
       (map (fun e => ({| req_score := ofN (fst (fst e));
                          req_message := snd (fst e) |}, snd e)) entries) r)
  = ofN (fold_left N.max (map (fun e => fst (fst e)) entries) k)
  /\ (forall e, In e entries ->
        (fst (fst e) <= fold_left N.max (map (fun e => fst (fst e)) entries) k)%N).
Proof.
  intros Hp Hall Hk. split; [apply submitAll_max; assumption |].
  clear Hall Hk r. intros e Hin.
  assert (Hmono : forall l a, (a <= fold_left N.max l a)%N).
  { induction l as [| b l IHl]; intros a; cbn [fold_left]; [lia |].
    specialize (IHl (N.max a b)). lia. }
  revert k. induction entries as [| e0 entries IH]; intros k; [destruct Hin |].
  cbn [map fold_left]. destruct Hin as [-> | Hin].
  - specialize (Hmono (map (fun e => fst (fst e)) entries) (N.max k (fst (fst e)))).
    lia.
  - apply IH. exact Hin.
Qed.

(** X14. Posting the same score again changes nothing: after a served
    submission of an integer below [10^21], a second served submission of that
    score without a message answers the same high score with
    [newBest = false], writes nothing and leaves the store as it was. *)
Theorem resubmission_is_idempotent
    (p : string) (n : N) (text : option string) (env env' : Env) (r : Redis) :
  truthy p = true -> (n < 10 ^ 21)%N -> faults env = [] -> faults env' = [] ->
  let '(first, r', _) :=
    snakeScore (Some p) (Parsed {| req_score := ofN n; req_message := text |})
      env r in
  let '(second, r'', calls) :=
    snakeScore (Some p) (Parsed {| req_score := ofN n; req_message := None |})
      env' r' in
  r'' = r'
  /\ Forall (fun c => isWrite c = false) calls
  /\ exists highScore newBest comment,
       first = json200 (SnakeScoreResponse p highScore newBest comment)
       /\ second = json200 (SnakeScoreResponse p highScore false None).
Proof.
  intros Hp Hn Hf Hf'.
  pose (rq := {| req_score := ofN n; req_message := text |}).
  pose proof (storedHighScore_after p rq env r Hp (validScore_ofN n) Hf) as Hhigh.
  fold rq. rewrite (snakeScore_served p rq env r Hp (validScore_ofN n) Hf) in *.
  cbn [fst snd req_score req_message rq] in *.
  match type of Hhigh with storedHighScore p ?R = _ => set (r' := R) in * end.
  rewrite (snakeScore_served p {| req_score := ofN n; req_message := None |}
             env' r' Hp (validScore_ofN n) Hf').
  cbn [req_score req_message trimmedMessageOf truthy].
  assert (Hstored : storedHighScore p r'
                    = if gt (ofN n) (storedHighScore p r) then ofN n
                      else storedHighScore p r).
  { rewrite Hhigh. destruct (gt (ofN n) (storedHighScore p r)); [| reflexivity].
    apply readHighScore_plain. exact Hn. }
  assert (Hnot : gt (ofN n) (storedHighScore p r') = false).
  { rewrite Hstored. destruct (gt (ofN n) (storedHighScore p r)) eqn:Hgt;
      [apply lt_irrefl | exact Hgt]. }
  rewrite Hnot. split; [destruct r'; reflexivity |].
  split; [repeat constructor |].
  do 3 eexists. split; [reflexivity |]. rewrite Hstored. reflexivity.
Qed.

Lemma truthy_trimStart (s : string) :
  truthy (trimStart s) = negb (Text.blank s).
Proof.
  unfold Text.blank. induction s as [| c s IH]; [reflexivity |].
  cbn [trimStart list_ascii_of_string forallb].
  destruct (isWhiteSpace c); [exact IH | reflexivity].
Qed.

Lemma list_ascii_of_reverse (s : string) :
  list_ascii_of_string (reverse s) = rev (list_ascii_of_string s).
Proof. unfold reverse. apply list_ascii_of_string_of_list_ascii. Qed.

Lemma truthy_reverse (s : string) : truthy (reverse s) = truthy s.
Proof.
  unfold reverse. destruct s as [| c s]; [reflexivity |].
  cbn [list_ascii_of_string rev truthy].
  destruct (rev (list_ascii_of_string s)); reflexivity.
Qed.

Lemma forallb_rev {A} (f : A -> bool) (l : list A) :
  forallb f (rev l) = forallb f l.
Proof.
  induction l as [| a l IH]; [reflexivity |].
  cbn [rev forallb]. rewrite forallb_app, IH. cbn [forallb].
  rewrite andb_true_r. apply andb_comm.
Qed.

Lemma blank_reverse (s : string) : Text.blank (reverse s) = Text.blank s.
Proof. unfold Text.blank. rewrite list_ascii_of_reverse. apply forallb_rev. Qed.

Lemma blank_trimStart (s : string) : Text.blank (trimStart s) = Text.blank s.
Proof.
  unfold Text.blank. induction s as [| c s IH]; [reflexivity |].
  cbn [trimStart]. destruct (isWhiteSpace c) eqn:Hc.
  - rewrite IH. cbn [list_ascii_of_string forallb]. rewrite Hc. reflexivity.
  - reflexivity.
Qed.

(** A trimmed text is empty exactly when the text is blank. *)
Lemma truthy_trim (s : string) : truthy (trim s) = negb (Text.blank s).
Proof.
  unfold trim.
  rewrite truthy_reverse, truthy_trimStart, blank_reverse, blank_trimStart.
  reflexivity.
Qed.

Lemma substring0_length (n : nat) (s : string) :
  String.length (substring 0 n s) = Nat.min n (String.length s).
Proof.
  revert s. induction n as [| n IH]; intros [| c s]; try reflexivity.
  cbn [substring String.length]. rewrite IH. reflexivity.
Qed.

Lemma substring0_prefix (n : nat) (s : string) :
  exists rest, s = (substring 0 n s ++ rest)%string.
Proof.
  revert s. induction n as [| n IH]; intros [| c s].
  - exists "". reflexivity.
  - exists (String c s). reflexivity.
  - exists "". reflexivity.
  - destruct (IH s) as [rest Hrest]. exists rest.
    cbn [substring].
    change ((String c (substring 0 n s) ++ rest)%string)
      with (String c (substring 0 n s ++ rest)).
    rewrite <- Hrest. reflexivity.
Qed.

Lemma substring0_all (n : nat) (s : string) :
  (String.length s <= n)%nat -> substring 0 n s = s.
Proof.
  revert s. induction n as [| n IH]; intros [| c s] Hlen; try reflexivity.
  - cbn [String.length] in Hlen. lia.
  - cbn [substring]. rewrite IH; [reflexivity |]. cbn [String.length] in Hlen. lia.
Qed.

(** X15. A served submission creates a comment exactly when its message is
    a string that is not blank. Without one the comment log is not written:
    the stored log and every comment-log key are as before, and no
    [redis.set] on the comment key is issued. *)
Theorem comment_only_for_a_real_message
    (p : string) (rq : SnakeScoreRequest) (env : Env) (r : Redis) :
  truthy p = true -> validScore (req_score rq) -> faults env = [] ->
  let '(resp, r', calls) := snakeScore (Some p) (Parsed rq) env r in
  exists highScore newBest comment,
    resp = json200 (SnakeScoreResponse p highScore newBest comment)
    /\ (comment <> None <->
        exists m, req_message rq = Some m /\ Text.blank m = false)
    /\ (comment = None ->
        documents r' = documents r
        /\ Forall (fun c => fst c <> RedisSet (commentsKey (snakeKeysForPost p)))
                  calls).
Proof.
  intros Hp Hvalid Hf.
  rewrite (snakeScore_served p rq env r Hp Hvalid Hf).
  do 3 eexists. split; [reflexivity |].
  assert (Htext : truthy (trimmedMessageOf (req_message rq)) = true
                  <-> exists m, req_message rq = Some m /\ Text.blank m = false).
  { unfold trimmedMessageOf. destruct (req_message rq) as [m |].
    - rewrite truthy_trim. split.
      + intros H. exists m. split; [reflexivity |].
        destruct (Text.blank m); [discriminate H | reflexivity].
      + intros (m' & [= <-] & ->). reflexivity.
    - split; [discriminate | intros (m' & H & _); discriminate H]. }
  destruct (truthy (trimmedMessageOf (req_message rq))) eqn:Htruthy.
  - split.
    + split; [intros _; apply Htext; reflexivity | discriminate].
    + discriminate.
  - split.
    + split; [intros H; contradiction |].
      intros H. apply Htext in H. discriminate H.
    + intros _. split; [reflexivity |].
      pose proof (keys_differ p) as Hkeys.
      destruct (gt (req_score rq) (storedHighScore p r));
        repeat constructor; cbn [fst]; congruence.
Qed.

(** X16. The message of a created comment is the trimmed message cut to its
    first 280 characters: it is not empty, has at most 280 characters, is a
    prefix of the trimmed message, and is the whole of it when that has at
    most 280 characters. The comment carries the submitted score. *)
Theorem comment_message_is_bounded
    (p : string) (rq : SnakeScoreRequest) (env : Env) (r : Redis) (m : string) :
  truthy p = true -> validScore (req_score rq) -> faults env = [] ->
  req_message rq = Some m -> Text.blank m = false ->
  let '(resp, _, _) := snakeScore (Some p) (Parsed rq) env r in
  exists highScore newBest c,
    resp = json200 (SnakeScoreResponse p highScore newBest (Some c))
    /\ (1 <= String.length (message c) <= 280)%nat
    /\ (exists rest, trim m = (message c ++ rest)%string)
    /\ ((String.length (trim m) <= 280)%nat -> message c = trim m)
    /\ score c = req_score rq.
Proof.
  intros Hp Hvalid Hf Hm Hblank.
  rewrite (snakeScore_served p rq env r Hp Hvalid Hf).
  assert (Htruthy : truthy (trimmedMessageOf (req_message rq)) = true).
  { rewrite Hm. cbn [trimmedMessageOf]. rewrite truthy_trim, Hblank.
    reflexivity. }
  rewrite Htruthy, Hm. cbn [trimmedMessageOf] in *.
  do 3 eexists. split; [reflexivity |].
  cbn [makeComment message score]. unfold slice0.
  rewrite substring0_length.
  split; [| split; [apply substring0_prefix | split;
                    [apply substring0_all | reflexivity]]].
  rewrite Hm in Htruthy. cbn [trimmedMessageOf] in Htruthy.
  destruct (trim m) as [| c rest]; [discriminate Htruthy |].
  cbn [String.length]. lia.
Qed.

(** X17. When one of the three reads that open a valid submission throws,
    the submission writes nothing: the store is the one before the request,
    no [redis.set] is issued, and the answer has status 400. *)
Theorem failed_read_writes_nothing
    (p : string) (rq : SnakeScoreRequest) (env : Env) (r : Redis) :
  truthy p = true -> validScore (req_score rq) ->
  (exists t, In (Some t) (firstn 3 (faults env))) ->
  let '(resp, r', calls) := snakeScore (Some p) (Parsed rq) env r in
  r' = r
  /\ Forall (fun c => isWrite c = false) calls
  /\ status resp = 400.
Proof.
  intros Hp [Hfin Hneg] Hfault. revert Hfault.
  unfold snakeScore, serve, onError, snakeScore_route, answer, respond, missing.
  rewrite Hp, Hfin, Hneg. cbn [negb orb default].
  explore_route.
  all: intros [thrown Hin]; cbn [firstn In] in Hin.
  all: try (exfalso; intuition discriminate).
  all: split; [reflexivity | split; [repeat constructor | reflexivity]].
Qed.

(** X18. The two writes of a submission are not undone together. When the
    write of the comment log throws after the high score was written, the
    caller gets the error built from what was thrown, the new high score
    stays in the store, and the stored comments are the old ones. When the
    write of the high score itself throws, nothing is written. *)
Theorem failed_write_keeps_earlier_write
    (p : string) (n : N) (m : string) (env : Env) (r : Redis) (t : Thrown) :
  truthy p = true -> (n < 10 ^ 21)%N ->
  gt (ofN n) (storedHighScore p r) = true ->
  Text.blank m = false ->
  let rq := {| req_score := ofN n; req_message := Some m |} in
  let error := json400 (ErrorResponse
                 (failureMessage "Unknown error while saving score"
                                 "Saving score failed: " t)) in
  (faults env = [None; None; None; None; Some t] ->
   let '(resp, r', _) := snakeScore (Some p) (Parsed rq) env r in
   resp = error
   /\ storedHighScore p r' = ofN n
   /\ storedComments p r' = storedComments p r)
  /\ (faults env = [None; None; None; Some t] ->
      let '(resp, r', calls) := snakeScore (Some p) (Parsed rq) env r in
      resp = error /\ r' = r /\ length calls = 4%nat).
Proof.
  intros Hp Hn Hgt Hblank rq error.
  assert (Htruthy : truthy (trimmedMessageOf (Some m)) = true).
  { cbn [trimmedMessageOf]. rewrite truthy_trim, Hblank. reflexivity. }
  unfold storedHighScore in Hgt.
  split; intros Hf.
  - unfold snakeScore, serve, onError, snakeScore_route, answer, respond, missing.
    rewrite Hp. cbn [negb orb default rq req_score req_message].
    destruct (validScore_ofN n) as [Hfin Hneg]. rewrite Hfin, Hneg.
    cbn [negb orb].
    unfold tryCatch, snakeScore_try, Promise_all3, bind, settle, redis_get,
      redis_get_document, reddit_getCurrentUsername, redis_set,
      redis_set_document, ret, external.
    rewrite Hf. evaluate_call. rewrite Hgt. evaluate_call.
    rewrite Htruthy. evaluate_call.
    split; [reflexivity |]. split.
    + rewrite storedHighScore_insert. apply readHighScore_plain. exact Hn.
    + reflexivity.
  - unfold snakeScore, serve, onError, snakeScore_route, answer, respond, missing.
    rewrite Hp. cbn [negb orb default rq req_score req_message].
    destruct (validScore_ofN n) as [Hfin Hneg]. rewrite Hfin, Hneg.
    cbn [negb orb].
    unfold tryCatch, snakeScore_try, Promise_all3, bind, settle, redis_get,
      redis_get_document, reddit_getCurrentUsername, redis_set,
      redis_set_document, ret, external.
    rewrite Hf. evaluate_call. rewrite Hgt. evaluate_call.
    repeat split.
Qed.

End MoreScoreboardFacts.

(** * The counter route and the client in front of the service *)

Section CounterFacts.

Import JS Scoreboard Counter.

Lemma count_is_no_snake_key (p : string) :
  "count" <> scoreKey (snakeKeysForPost p).
Proof.
  intros Heq.
  apply (f_equal (fun s => match s with
                           | String c _ => c
                           | EmptyString => "000"%char
                           end)) in Heq.
  cbv in Heq. discriminate Heq.
Qed.

(** X19. The counter route [/init] only reads: the store after it is the
    store before it and it issues no [redis.set]. Served for a present
    context it answers 200 with the number read from the one key [count] (0
    when absent), the same for every context; a call that throws is answered
    400 with the message built from what was thrown. No snake submission
    changes the key it reads. *)
Theorem counter_init_reads_shared_count
    (postId : option string) (env : Env) (r : Redis) :
  let '(resp, r', calls) := Counter.init postId env r in
  r' = r
  /\ Forall (fun c => isWrite c = false) calls
  /\ (forall p, postId = Some p -> truthy p = true -> thrownBy calls = [] ->
      resp = {| counter_status := 200;
                counter_body :=
                  InitResponse p (readHighScore (strings r !! "count"))
                    (orAnonymous (currentUsername env)) |}
      /\ (strings r !! "count" = None ->
          counter_body resp
          = InitResponse p zero (orAnonymous (currentUsername env))))
  /\ (thrownBy calls <> [] ->
      exists t, In t (thrownBy calls)
        /\ resp = {| counter_status := 400;
                     counter_body :=
                       CounterError
                         (failureMessage "Unknown error during initialization"
                                         "Initialization failed: " t) |})
  /\ (forall p request env',
        strings (snd (fst (snakeScore (Some p) request env' r))) !! "count"
        = strings r !! "count").
Proof.
  assert (Hframe : forall p request env',
             strings (snd (fst (snakeScore (Some p) request env' r))) !! "count"
             = strings r !! "count").
  { intros p request env'. apply snakeScore_frame. apply count_is_no_snake_key. }
  unfold Counter.init, init_route.
  destruct (missing postId) eqn:Hmissing.
  - cbn -[snakeScore]. split; [reflexivity |]. split; [constructor |].
    split; [| split; [intros H; contradiction | exact Hframe]].
    intros p -> Hp. unfold missing in Hmissing. rewrite Hp in Hmissing.
    discriminate Hmissing.
  - unfold init_try, Promise_all2, bind, settle, redis_get,
      reddit_getCurrentUsername, ret, external.
    generalize (faults env) as fs. intros fs.
    destruct fs as [| [t1 |] [| [t2 |] fs]];
      cbn -[readHighScore failureMessage snakeScore].
    all: split; [reflexivity |].
    all: split; [repeat constructor |].
    all: split; [| split; [| exact Hframe]].
    all: try (intros p -> Hp Hnone;
              first [ discriminate Hnone
                    | cbn [default]; split;
                      [reflexivity | intros ->; reflexivity] ]).
    all: intros Hsome; try (exfalso; apply Hsome; reflexivity).
    all: eexists; split; [left; reflexivity | reflexivity].
Qed.

End CounterFacts.

Section ClientFacts.

Import JS Scoreboard Client.

Lemma numberOfZ_positive (z : Z) : 0 < z -> numberOfZ z = ofN (Z.to_N z).
Proof.
  intros Hz. unfold numberOfZ, ofN.
  replace (z <? 0) with false by (symmetry; apply Z.ltb_ge; lia).
  rewrite Z.abs_eq by lia. reflexivity.
Qed.

(** X20. Loading the page never writes to the store and always ends the
    loading state. Served for a present context, it leaves the feed showing
    exactly the stored comments and the stored high score, and the name of the
    player. When the context is missing or one of the three reads throws, the
    feed keeps its comments and high score and shows the load banner. *)
Theorem load_shows_the_store
    (postId : option string) (env : Env) (f : Feed) (r : Redis) :
  let '(f', r') := load postId env (f, r) in
  r' = r
  /\ loadingInit f' = false
  /\ (forall p, postId = Some p -> truthy p = true -> faults env = [] ->
      comments f' = storedComments p r
      /\ highScore f' = storedHighScore p r
      /\ username f' = Some (orAnonymous (currentUsername env))
      /\ error f' = error f)
  /\ (missing postId = true \/ (exists t, In (Some t) (firstn 3 (faults env))) ->
      f' = initFailed f).
Proof.
  unfold load. cbn [fst snd].
  assert (Hserved : forall p, postId = Some p -> truthy p = true ->
                     faults env = [] ->
                     snakeInit postId env r
                     = (json200 (SnakeInitResponse p
                                   (orAnonymous (currentUsername env))
                                   (storedHighScore p r) (storedComments p r)),
                        r, snd (snakeInit postId env r))).
  { intros p -> Hp Hf. rewrite (snakeInit_served p env r Hp Hf). reflexivity. }
  revert Hserved.
  unfold snakeInit, serve, snakeInit_route.
  destruct (missing postId) eqn:Hmissing.
  - intros _. cbn. split; [reflexivity |]. split; [reflexivity |].
    split; [| intros _; reflexivity].
    intros p -> Hp. unfold missing in Hmissing. rewrite Hp in Hmissing.
    discriminate Hmissing.
  - explore_route.
    all: intros Hserved; split; [reflexivity |]; split; [reflexivity |]; split.
    all: try (intros p Hpost Hp Hf;
              first [ discriminate Hf
                    | specialize (Hserved p Hpost Hp Hf);
                      injection Hserved as Hresp; rewrite Hresp;
                      repeat split; reflexivity ]).
    all: intros [Hm | [thrown Hin]]; try discriminate Hm;
      cbn [firstn In] in Hin; try (exfalso; intuition discriminate).
    all: reflexivity.
Qed.

Lemma lastTwenty_capLog (l : list json) : lastTwenty l = capLog l.
Proof. unfold lastTwenty. symmetry. apply capLog_skipn. Qed.

(** X21. Posting keeps the feed in step with the store. With a feed that
    shows the stored comments, a served post of a positive score below
    [10^21] leaves the feed showing the stored comments and the stored high
    score again, with the text field emptied; a score that is not positive
    sends nothing and changes nothing. *)
Theorem share_keeps_feed_in_step
    (p : string) (env : Env) (points : Z) (f : Feed) (r : Redis) :
  truthy p = true -> faults env = [] ->
  comments f = storedComments p r ->
  (points <= 0 -> share (Some p) env points (f, r) = (f, r))
  /\ (0 < points < 10 ^ 21 ->
      let '(f', r') := share (Some p) env points (f, r) in
      comments f' = storedComments p r'
      /\ highScore f' = storedHighScore p r'
      /\ commentText f' = ""
      /\ error f' = error f).
Proof.
  intros Hp Hf Hsync. split.
  - intros Hle. unfold share, handleShareScore. cbn [fst snd].
    replace (points <=? 0) with true by (symmetry; apply Z.leb_le; exact Hle).
    reflexivity.
  - intros [Hpos Hbound]. unfold share, handleShareScore. cbn [fst snd].
    replace (points <=? 0) with false by (symmetry; apply Z.leb_gt; exact Hpos).
    rewrite (numberOfZ_positive points Hpos).
    set (n := Z.to_N points).
    assert (Hn : (n < 10 ^ 21)%N).
    { unfold n. change (10 ^ 21)%N with (Z.to_N (10 ^ 21)).
      apply Z2N.inj_lt; lia. }
    set (rq := {| req_score := ofN n; req_message := Some (commentText f) |}).
    pose proof (storedHighScore_after p rq env r Hp (validScore_ofN n) Hf) as Hhigh.
    pose proof (storedComments_after p rq env r Hp (validScore_ofN n) Hf) as Hlog.
    rewrite (snakeScore_served p rq env r Hp (validScore_ofN n) Hf) in *.
    cbn [fst snd req_score req_message rq] in *.
    match type of Hhigh with storedHighScore p ?R = _ => set (r' := R) in * end.
    cbn [ok json200 status body negb andb Z.leb Z.compare Pos.compare
         Pos.compare_cont].
    change (negb ((200 <=? 200) && (200 <=? 299))) with false. cbn iota.
    cbn [comments highScore commentText error].
    split; [| split; [| split; reflexivity]].
    + rewrite Hlog. unfold commentOf. cbn [fst snd req_score req_message].
      destruct (truthy (trimmedMessageOf (Some (commentText f))));
        [| exact Hsync].
      rewrite lastTwenty_capLog, Hsync. reflexivity.
    + rewrite Hhigh. destruct (gt (ofN n) (storedHighScore p r)); [| reflexivity].
      rewrite readHighScore_plain by exact Hn. reflexivity.
Qed.

(** X22. A post that fails keeps what the player typed. When the context is
    missing, or one of the three reads of the submit route throws, a post of a
    positive score leaves the store untouched and changes nothing in the feed
    but the error banner: comments, high score and the text field stay. *)
Theorem failed_share_keeps_the_text
    (postId : option string) (env : Env) (points : Z) (f : Feed) (r : Redis) :
  0 < points ->
  missing postId = true \/ (exists t, In (Some t) (firstn 3 (faults env))) ->
  share postId env points (f, r) = (shareFailed f, r)
  /\ commentText (shareFailed f) = commentText f
  /\ comments (shareFailed f) = comments f
  /\ highScore (shareFailed f) = highScore f.
Proof.
  intros Hpos Hfail. split; [| repeat split].
  revert Hfail. unfold share, handleShareScore. cbn [fst snd].
  replace (points <=? 0) with false by (symmetry; apply Z.leb_gt; exact Hpos).
  rewrite (numberOfZ_positive points Hpos).
  unfold snakeScore, serve, onError, snakeScore_route, answer, respond.
  destruct (missing postId) eqn:Hmissing; [intros _; reflexivity |].
  destruct (validScore_ofN (Z.to_N points)) as [Hfin Hneg].
  cbn [req_score req_message]. rewrite Hfin, Hneg. cbn [negb orb].
  explore_route.
  all: intros [Hm | [thrown Hin]]; try discriminate Hm;
    cbn [firstn In] in Hin; try (exfalso; intuition discriminate).
  all: reflexivity.
Qed.

End ClientFacts.

Import MoreScenarios.

Lemma X11_witness :
  let r' := snd (fst (snakeScore (Some Scenarios.post)
                        (Parsed (Scenarios.submit (ofN 20) (Some "hi")))
                        Scenarios.quiet (Scenarios.withHighScore "15"))) in
  storedHighScore otherPost r'
  = storedHighScore otherPost (Scenarios.withHighScore "15")
  /\ storedComments otherPost r'
     = storedComments otherPost (Scenarios.withHighScore "15").
Proof.
  apply (submissions_stay_in_their_context Scenarios.post otherPost).
  discriminate.
Defined.

Lemma X12_witness :
  let '(submitted, r', _) :=
    snakeScore (Some Scenarios.post)
      (Parsed {| req_score := ofN 20; req_message := Some "hi" |})
      Scenarios.quiet (Scenarios.withHighScore "15") in
  let '(loaded, _, _) := snakeInit (Some Scenarios.post) Scenarios.quiet r' in
  exists highScore newBest comment log,
    submitted = json200 (SnakeScoreResponse Scenarios.post highScore newBest
                           comment)
    /\ loaded = json200 (SnakeInitResponse Scenarios.post
                           (orAnonymous (currentUsername Scenarios.quiet))
                           highScore log)
    /\ (forall c, comment = Some c -> last log = Some (commentJson c)).
Proof.
  apply (init_after_submit Scenarios.post 20 (Some "hi") Scenarios.quiet
           Scenarios.quiet (Scenarios.withHighScore "15"));
    reflexivity.
Defined.

Lemma X13_witness :
  storedHighScore Scenarios.post
    (submitAll Scenarios.post
       (map (fun e => ({| req_score := ofN (fst (fst e));
                          req_message := snd (fst e) |}, snd e)) threePosts)
       noData)
  = ofN 12.
Proof.
  apply (high_score_is_maximum Scenarios.post threePosts noData 0).
  - reflexivity.
  - repeat constructor.
  - reflexivity.
Defined.

Lemma X14_witness :
  let '(first, r', _) :=
    snakeScore (Some Scenarios.post)
      (Parsed {| req_score := ofN 20; req_message := Some "hi" |})
      Scenarios.quiet (Scenarios.withHighScore "15") in
  let '(second, r'', calls) :=
    snakeScore (Some Scenarios.post)
      (Parsed {| req_score := ofN 20; req_message := None |})
      Scenarios.quiet r' in
  r'' = r'
  /\ Forall (fun c => isWrite c = false) calls
  /\ exists highScore newBest comment,
       first = json200 (SnakeScoreResponse Scenarios.post highScore newBest
                          comment)
       /\ second = json200 (SnakeScoreResponse Scenarios.post highScore false
                              None).
Proof.
  apply (resubmission_is_idempotent Scenarios.post 20 (Some "hi")
           Scenarios.quiet Scenarios.quiet (Scenarios.withHighScore "15"));
    reflexivity.
Defined.

Lemma X15_witness :
  let '(resp, r', calls) :=
    snakeScore (Some Scenarios.post) (Parsed (Scenarios.submit (ofN 20) (Some "   ")))
      Scenarios.quiet noData in
  exists highScore newBest comment,
    resp = json200 (SnakeScoreResponse Scenarios.post highScore newBest comment)
    /\ (comment <> None <->
        exists m, req_message (Scenarios.submit (ofN 20) (Some "   ")) = Some m
                  /\ Text.blank m = false)
    /\ (comment = None ->
        documents r' = documents noData
        /\ Forall (fun c => fst c <> RedisSet (commentsKey
                                                 (snakeKeysForPost Scenarios.post)))
                  calls).
Proof.
  apply (comment_only_for_a_real_message Scenarios.post
           (Scenarios.submit (ofN 20) (Some "   ")) Scenarios.quiet noData).
  - reflexivity.
  - split; reflexivity.
  - reflexivity.
Defined.

Lemma X16_witness :
  let '(resp, _, _) :=
    snakeScore (Some Scenarios.post)
      (Parsed (Scenarios.submit (ofN 12) (Some "  good game  ")))
      Scenarios.quiet noData in
  exists highScore newBest c,
    resp = json200 (SnakeScoreResponse Scenarios.post highScore newBest (Some c))
    /\ (1 <= String.length (message c) <= 280)%nat
    /\ (exists rest, trim "  good game  " = (message c ++ rest)%string)
    /\ ((String.length (trim "  good game  ") <= 280)%nat ->
        message c = trim "  good game  ")
    /\ score c = req_score (Scenarios.submit (ofN 12) (Some "  good game  ")).
Proof.
  apply (comment_message_is_bounded Scenarios.post
           (Scenarios.submit (ofN 12) (Some "  good game  "))
           Scenarios.quiet noData "  good game  ").
  - reflexivity.
  - split; reflexivity.
  - reflexivity.
  - reflexivity.
  - reflexivity.
Defined.

Lemma X17_witness :
  let '(resp, r', calls) :=
    snakeScore (Some Scenarios.post) (Parsed (Scenarios.submit (ofN 20) (Some "hi")))
      (Scenarios.flaky "ECONNRESET") (Scenarios.withHighScore "15") in
  r' = Scenarios.withHighScore "15"
  /\ Forall (fun c => isWrite c = false) calls
  /\ status resp = 400.
Proof.
  apply (failed_read_writes_nothing Scenarios.post
           (Scenarios.submit (ofN 20) (Some "hi"))
           (Scenarios.flaky "ECONNRESET") (Scenarios.withHighScore "15")).
  - reflexivity.
  - split; reflexivity.
  - exists (ThrownError "ECONNRESET"). right. left. reflexivity.
Defined.

Lemma X18_witness :
  let '(resp, r', _) :=
    snakeScore (Some Scenarios.post)
      (Parsed {| req_score := ofN 20; req_message := Some "hi" |})
      (failsOnFifth ThrownOther) (Scenarios.withHighScore "15") in
  resp = json400 (ErrorResponse "Unknown error while saving score")
  /\ storedHighScore Scenarios.post r' = ofN 20
  /\ storedComments Scenarios.post r'
     = storedComments Scenarios.post (Scenarios.withHighScore "15").
Proof.
  destruct (failed_write_keeps_earlier_write Scenarios.post 20 "hi"
              (failsOnFifth ThrownOther) (Scenarios.withHighScore "15")
              ThrownOther) as [Hfifth _]; try reflexivity.
  apply Hfifth. reflexivity.
Defined.

Lemma X21_witness :
  let '(f', r') :=
    Client.share (Some Scenarios.post) Scenarios.quiet 3
      (typed "close one", noData) in
  Client.comments f' = storedComments Scenarios.post r'
  /\ Client.highScore f' = storedHighScore Scenarios.post r'
  /\ Client.commentText f' = ""
  /\ Client.error f' = Client.error (typed "close one").
Proof.
  destruct (share_keeps_feed_in_step Scenarios.post Scenarios.quiet 3
              (typed "close one") noData) as [_ Hposted]; try reflexivity.
  apply Hposted. lia.
Defined.

Lemma X22_witness :
  Client.share (Some Scenarios.post) (Scenarios.flaky "ECONNRESET") 3
    (typed "close one", noData)
  = (Client.shareFailed (typed "close one"), noData)
  /\ Client.commentText (Client.shareFailed (typed "close one")) = "close one".
Proof.
  destruct (failed_share_keeps_the_text (Some Scenarios.post)
              (Scenarios.flaky "ECONNRESET") 3 (typed "close one") noData)
    as (Hshare & Htext & _).
  - lia.
  - right. exists (ThrownError "ECONNRESET"). right. left. reflexivity.
  - split; [exact Hshare | exact Htext].
Defined.

(** * How long the snake can get, and what that means for posting *)

Section CapacityFacts.

Import Game Shape.

Variable Math_random : nat -> Q.

Lemma onBoard_in_everyCell (c : Cell) : onBoard c -> In c everyCell.
Proof.
  unfold onBoard, BOARD_SIZE. intros [Hx Hy]. unfold everyCell.
  apply in_flat_map. exists (Z.to_nat (x c)). split.
  - apply in_seq. unfold BOARD_SIZE. lia.
  - apply in_map_iff. exists (Z.to_nat (y c)). split.
    + destruct c as [cx cy]. cbn [x y] in *. f_equal; lia.
    + apply in_seq. unfold BOARD_SIZE. lia.
Qed.

(** X23. In every reachable session the snake has at most 400 cells, one per
    cell of the board, so the score is between 0 and 399. *)
Theorem reachable_score_bounded (events : list Event) :
  (length (snake (run Math_random events)) <= 400)%nat
  /\ 0 <= score (run Math_random events) <= 399.
Proof.
  pose proof (run_wellFormed Math_random events) as Hwf.
  pose proof (wf_distinct _ Hwf) as Hdistinct.
  pose proof (wf_onBoard _ Hwf) as Hboard.
  pose proof (wf_score _ Hwf) as Hscore.
  pose proof (wf_nonempty _ Hwf) as Hne.
  assert (Hlen : (length (snake (run Math_random events)) <= 400)%nat).
  { change 400%nat with (length everyCell).
    apply submseteq_length, NoDup_submseteq; [exact Hdistinct |].
    intros c Hc. apply list_elem_of_In, onBoard_in_everyCell.
    rewrite Forall_forall in Hboard. apply Hboard. exact Hc. }
  split; [exact Hlen |].
  destruct (snake (run Math_random events)); [contradiction |].
  cbn [length] in *. lia.
Qed.

End CapacityFacts.
